(** * Window groups of the walk toolkit: reference counting, the
      synchronized-call queue, the group manager and the thread-lock helpers.

    A shallow embedding of the window-group source (the manager and
    [WindowGroup]) and of the thread-lock helpers ([EnterThread],
    [LockThread], ...).

    Go pointers to groups are locations in a heap of group records, so that
    every holder of a [*WindowGroup] sees the same counters.  A method is a
    function from the world to an outcome: a normal return with the new world,
    a panic (with the world as the panic found it), a goroutine blocked for
    ever on a mutex it cannot get, or fuel exhausted.  Fuel only bounds the
    re-entrant chain Add -> dispose -> ToolTip.Dispose -> Done -> Add. *)

From Stdlib Require Import ZArith Lia List Bool.
From stdpp Require Import base option list gmap strings.

Local Open Scope Z_scope.

(** ** Go's [int]: 64-bit two's complement *)

Module GoInt.

Definition intBits : Z := 64.
Definition minInt : Z := - 2 ^ (intBits - 1).
Definition maxInt : Z := 2 ^ (intBits - 1) - 1.

(** The value an arithmetic result takes once it is stored in an [int]. *)
Definition wrap (z : Z) : Z :=
  (z + 2 ^ (intBits - 1)) mod 2 ^ intBits - 2 ^ (intBits - 1).

Definition add (x y : Z) : Z := wrap (x + y).
Definition sub (x y : Z) : Z := wrap (x - y).

Definition inRange (z : Z) : Prop := minInt <= z <= maxInt.

End GoInt.

(** ** Data model *)

(** A [*WindowGroup]: an index into the heap of groups. *)
Abbreviation loc := nat (only parsing).

(** Opaque handles of the collaborators: [*ToolTip], [Form], [LayoutResult]
    and [*stopwatch] are only stored and passed on. *)
Definition ToolTipPtr := nat.
Definition Form := nat.
Definition LayoutResult := nat.
Definition Stopwatch := nat.

(** A [func()] queued with [Synchronize].  Closures are defunctionalised: a
    callback leaves a mark, queues another callback or a layout batch on a
    group, does two things in a row, or panics. *)
Inductive Callback : Type :=
| CbMark (label : nat)
| CbSynchronize (g : loc) (f : Callback)
| CbSynchronizeLayout (g : loc) (results : list LayoutResult) (sw : option Stopwatch)
| CbSeq (a b : Callback)
| CbPanic (msg : string).

(** What the outside world can observe of a run. *)
Inductive Event : Type :=
| EvInvoke (f : Callback)          (* RunSynchronized called f() *)
| EvMark (label : nat)             (* the body of a callback ran *)
| EvApplyLayout (results : list LayoutResult) (sw : option Stopwatch)
| EvNewToolTip (tip : ToolTipPtr)  (* a tooltip control was constructed *)
| EvToolTipDispose (tip : ToolTipPtr)
| EvDispose (g : loc)              (* dispose() was entered on g *)
| EvCompletion (threadID : N).     (* g.completion(threadID) was called *)

(** The [completion func(uint32)] of a group.  The only function the code
    ever passes to [newWindowGroup] is the manager's [removeGroup]. *)
Inductive Completion : Type :=
| ComplRemoveGroup.

Record WindowGroup : Type := mkWindowGroup {
  refs : Z;
  ignored : Z;
  threadID : N;
  completion : Completion;
  removed : bool;
  toolTip : option ToolTipPtr;
  activeForm : option Form;
  syncMutex : bool;                      (* true: held *)
  syncFuncs : list Callback;
  layoutResults : list LayoutResult;     (* nil slice = [] *)
  layoutStopwatch : option Stopwatch
}.

Definition set_refs (v : Z) (x : WindowGroup) : WindowGroup :=
  mkWindowGroup v (ignored x) (threadID x) (completion x) (removed x) (toolTip x)
    (activeForm x) (syncMutex x) (syncFuncs x) (layoutResults x) (layoutStopwatch x).
Definition set_ignored (v : Z) (x : WindowGroup) : WindowGroup :=
  mkWindowGroup (refs x) v (threadID x) (completion x) (removed x) (toolTip x)
    (activeForm x) (syncMutex x) (syncFuncs x) (layoutResults x) (layoutStopwatch x).
Definition set_removed (v : bool) (x : WindowGroup) : WindowGroup :=
  mkWindowGroup (refs x) (ignored x) (threadID x) (completion x) v (toolTip x)
    (activeForm x) (syncMutex x) (syncFuncs x) (layoutResults x) (layoutStopwatch x).
Definition set_toolTip (v : option ToolTipPtr) (x : WindowGroup) : WindowGroup :=
  mkWindowGroup (refs x) (ignored x) (threadID x) (completion x) (removed x) v
    (activeForm x) (syncMutex x) (syncFuncs x) (layoutResults x) (layoutStopwatch x).
Definition set_syncMutex (v : bool) (x : WindowGroup) : WindowGroup :=
  mkWindowGroup (refs x) (ignored x) (threadID x) (completion x) (removed x) (toolTip x)
    (activeForm x) v (syncFuncs x) (layoutResults x) (layoutStopwatch x).
Definition set_syncFuncs (v : list Callback) (x : WindowGroup) : WindowGroup :=
  mkWindowGroup (refs x) (ignored x) (threadID x) (completion x) (removed x) (toolTip x)
    (activeForm x) (syncMutex x) v (layoutResults x) (layoutStopwatch x).
Definition set_layout (r : list LayoutResult) (s : option Stopwatch) (x : WindowGroup)
  : WindowGroup :=
  mkWindowGroup (refs x) (ignored x) (threadID x) (completion x) (removed x) (toolTip x)
    (activeForm x) (syncMutex x) (syncFuncs x) r s.

(** The zero-valued group that [newWindowGroup] fills in. *)
Definition freshGroup (threadID : N) (completion : Completion) : WindowGroup :=
  mkWindowGroup 0 0 threadID completion false None None false [] [] None.

(** [sync.RWMutex]: free, held by [S n] readers, or held by the writer. *)
Inductive RWMutex : Type :=
| RWFree
| RWRead (n : nat)
| RWWrite.

Record windowGroupManager : Type := mkManager {
  mutex : RWMutex;
  groups : option (gmap N loc)           (* None: the nil map *)
}.

Record World : Type := mkWorld {
  heap : list WindowGroup;               (* every group ever allocated *)
  wgm : windowGroupManager;              (* the global manager instance *)
  Threaded : bool;
  MsgLoopMutex : bool;                   (* true: held *)
  osThreadPins : nat;                    (* nesting of runtime.LockOSThread *)
  newToolTipErrs : list bool;            (* outcomes of the coming NewToolTip calls *)
  nextToolTip : ToolTipPtr;
  trace : list Event
}.

Definition set_heap (v : list WindowGroup) (w : World) : World :=
  mkWorld v (wgm w) (Threaded w) (MsgLoopMutex w) (osThreadPins w)
    (newToolTipErrs w) (nextToolTip w) (trace w).
Definition set_wgm (v : windowGroupManager) (w : World) : World :=
  mkWorld (heap w) v (Threaded w) (MsgLoopMutex w) (osThreadPins w)
    (newToolTipErrs w) (nextToolTip w) (trace w).
Definition set_MsgLoopMutex (v : bool) (w : World) : World :=
  mkWorld (heap w) (wgm w) (Threaded w) v (osThreadPins w)
    (newToolTipErrs w) (nextToolTip w) (trace w).
Definition set_osThreadPins (v : nat) (w : World) : World :=
  mkWorld (heap w) (wgm w) (Threaded w) (MsgLoopMutex w) v
    (newToolTipErrs w) (nextToolTip w) (trace w).
Definition set_toolTips (errs : list bool) (next : ToolTipPtr) (w : World) : World :=
  mkWorld (heap w) (wgm w) (Threaded w) (MsgLoopMutex w) (osThreadPins w)
    errs next (trace w).
Definition set_trace (v : list Event) (w : World) : World :=
  mkWorld (heap w) (wgm w) (Threaded w) (MsgLoopMutex w) (osThreadPins w)
    (newToolTipErrs w) (nextToolTip w) v.

(** ** Outcomes and the monad of methods *)

Inductive Result (A : Type) : Type :=
| Ok (a : A) (w : World)
| Panic (msg : string) (w : World)
| Blocked (w : World)
| OutOfFuel.

Arguments Ok {A} a w.
Arguments Panic {A} msg w.
Arguments Blocked {A} w.
Arguments OutOfFuel {A}.

Definition M (A : Type) : Type := World -> Result A.

Definition ret {A} (a : A) : M A := fun w => Ok a w.

Definition bind {A B} (m : M A) (k : A -> M B) : M B :=
  fun w =>
    match m w with
    | Ok a w' => k a w'
    | Panic msg w' => Panic msg w'
    | Blocked w' => Blocked w'
    | OutOfFuel => OutOfFuel
    end.

Declare Scope go_scope.
Delimit Scope go_scope with go.
Notation "x <- m ;; k" := (bind m (fun x => k))
  (at level 100, m at next level, k at level 200, right associativity) : go_scope.
Notation "m ;; k" := (bind m (fun _ => k))
  (at level 100, k at level 200, right associativity) : go_scope.
Local Open Scope go_scope.

Definition panic {A} (msg : string) : M A := fun w => Panic msg w.
Definition block {A} : M A := fun w => Blocked w.
Definition gets {A} (f : World -> A) : M A := fun w => Ok (f w) w.
Definition modify (f : World -> World) : M unit := fun w => Ok tt (f w).
Definition emit (e : Event) : M unit :=
  modify (fun w => set_trace (trace w ++ [e]) w).

(** Reading and writing through a [*WindowGroup].  A location outside the
    heap is the nil pointer. *)
Definition load (g : loc) : M WindowGroup :=
  fun w =>
    match heap w !! g with
    | Some x => Ok x w
    | None => Panic "runtime error: invalid memory address or nil pointer dereference" w
    end.

Definition update (g : loc) (f : WindowGroup -> WindowGroup) : M unit :=
  x <- load g ;;
  modify (fun w => set_heap (<[g := f x]> (heap w)) w).

(** ** Mutexes, seen from the one goroutine that runs *)

(** [sync.Mutex.Lock]: a mutex that is held is never released by anybody
    else in a sequential run, so the caller stays blocked. *)
Definition syncMutex_Lock (g : loc) : M unit :=
  x <- load g ;;
  if syncMutex x then block else update g (set_syncMutex true).

Definition syncMutex_Unlock (g : loc) : M unit :=
  x <- load g ;;
  if syncMutex x then update g (set_syncMutex false)
  else panic "fatal error: sync: unlock of unlocked mutex".

Definition set_mutex (v : RWMutex) : M unit :=
  modify (fun w => set_wgm (mkManager v (groups (wgm w))) w).

Definition set_groups (v : option (gmap N loc)) : M unit :=
  modify (fun w => set_wgm (mkManager (mutex (wgm w)) v) w).

Definition mutex_RLock : M unit :=
  m <- gets (fun w => mutex (wgm w)) ;;
  match m with
  | RWFree => set_mutex (RWRead 0)
  | RWRead n => set_mutex (RWRead (S n))
  | RWWrite => block
  end.

Definition mutex_RUnlock : M unit :=
  m <- gets (fun w => mutex (wgm w)) ;;
  match m with
  | RWRead 0 => set_mutex RWFree
  | RWRead (S n) => set_mutex (RWRead n)
  | _ => panic "fatal error: sync: RUnlock of unlocked RWMutex"
  end.

Definition mutex_Lock : M unit :=
  m <- gets (fun w => mutex (wgm w)) ;;
  match m with
  | RWFree => set_mutex RWWrite
  | _ => block
  end.

Definition mutex_Unlock : M unit :=
  m <- gets (fun w => mutex (wgm w)) ;;
  match m with
  | RWWrite => set_mutex RWFree
  | _ => panic "fatal error: sync: Unlock of unlocked RWMutex"
  end.

(** ** The manager's side of disposal *)

(** [removeGroup]: [delete] on the nil map does nothing. *)
Definition removeGroup (threadID : N) : M unit :=
  mutex_Lock ;;
  gs <- gets (fun w => groups (wgm w)) ;;
  match gs with
  | Some m => set_groups (Some (delete threadID m))
  | None => ret tt
  end ;;
  mutex_Unlock.

Definition run_completion (c : Completion) (threadID : N) : M unit :=
  emit (EvCompletion threadID) ;;
  match c with
  | ComplRemoveGroup => removeGroup threadID
  end.

(** ** WindowGroup: reference counting *)

Definition msgAddRemoved : string :=
  "walk: add() called on a WindowGroup that has been removed from its manager".
Definition msgNegativeRefs : string :=
  "walk: negative WindowGroup refs counter".
Definition msgIgnoreRemoved : string :=
  "walk: ignore() called on a WindowGroup that has been removed from its manager".
Definition msgNegativeIgnored : string :=
  "walk: negative WindowGroup ignored counter".

(** Modelled from the spec: [ToolTip.Dispose] is not under src/.  The spec
    and the comment in [CreateToolTip] say that the tooltip holds a reference
    to this same group, added when it was initialised, and that the ignored
    reference is removed as part of the group's disposal: disposing the
    tooltip releases that reference with [Done], that is [add g (-1)]. *)
Definition ToolTip_Dispose (add : loc -> Z -> M unit) (g : loc) (tip : ToolTipPtr)
  : M unit :=
  emit (EvToolTipDispose tip) ;;
  add g (-1).

(** [dispose], with the [Add] that the tooltip's release re-enters. *)
Definition dispose_with (add : loc -> Z -> M unit) (g : loc) : M unit :=
  emit (EvDispose g) ;;
  x <- load g ;;
  match toolTip x with
  | Some tip =>
      ToolTip_Dispose add g tip ;;
      update g (set_toolTip None)
  | None => ret tt
  end ;;
  update g (set_removed true) ;;
  x <- load g ;;
  run_completion (completion x) (threadID x).

Fixpoint Add (fuel : nat) (g : loc) (delta : Z) : M unit :=
  match fuel with
  | O => fun _ => OutOfFuel
  | S fuel' =>
      x <- load g ;;
      if removed x then panic msgAddRemoved
      else
        update g (fun x => set_refs (GoInt.add (refs x) delta) x) ;;
        x <- load g ;;
        if refs x <? 0 then panic msgNegativeRefs
        else if GoInt.sub (refs x) (ignored x) =? 0
             then dispose_with (Add fuel') g
             else ret tt
  end.

Definition dispose (fuel : nat) (g : loc) : M unit :=
  dispose_with (Add fuel) g.

Definition Done (fuel : nat) (g : loc) : M unit :=
  Add fuel g (-1).

Definition ignore (fuel : nat) (g : loc) (delta : Z) : M unit :=
  x <- load g ;;
  if removed x then panic msgIgnoreRemoved
  else
    update g (fun x => set_ignored (GoInt.add (ignored x) delta) x) ;;
    x <- load g ;;
    if ignored x <? 0 then panic msgNegativeIgnored
    else if GoInt.sub (refs x) (ignored x) =? 0
         then dispose fuel g
         else ret tt.

Definition ThreadID (g : loc) : M N := x <- load g ;; ret (threadID x).
Definition Refs (g : loc) : M Z := x <- load g ;; ret (refs x).
Definition ToolTip (g : loc) : M (option ToolTipPtr) := x <- load g ;; ret (toolTip x).
Definition ActiveForm (g : loc) : M (option Form) := x <- load g ;; ret (activeForm x).

(** ** WindowGroup: the synchronized queue *)

Definition Synchronize (g : loc) (f : Callback) : M unit :=
  syncMutex_Lock g ;;
  update g (fun x => set_syncFuncs (syncFuncs x ++ [f]) x) ;;
  syncMutex_Unlock g.

Definition SynchronizeLayout (g : loc) (results : list LayoutResult)
  (stopwatch : option Stopwatch) : M unit :=
  syncMutex_Lock g ;;
  update g (set_layout results stopwatch) ;;
  syncMutex_Unlock g.

(** The layout subsystem's [applyLayoutResults] is external: all the core
    shows of it is that it was called, and with what. *)
Definition applyLayoutResults (results : list LayoutResult)
  (stopwatch : option Stopwatch) : M unit :=
  emit (EvApplyLayout results stopwatch).

(** Calling a queued [func()]. *)
Fixpoint call (f : Callback) : M unit :=
  match f with
  | CbMark n => emit (EvMark n)
  | CbSynchronize g f' => Synchronize g f'
  | CbSynchronizeLayout g results sw => SynchronizeLayout g results sw
  | CbSeq a b => call a ;; call b
  | CbPanic msg => panic msg
  end.

(** [for _, f := range funcs { f() }] *)
Fixpoint run_funcs (funcs : list Callback) : M unit :=
  match funcs with
  | [] => ret tt
  | f :: rest => emit (EvInvoke f) ;; call f ;; run_funcs rest
  end.

Definition RunSynchronized (g : loc) : M unit :=
  syncMutex_Lock g ;;
  x <- load g ;;
  let funcs := syncFuncs x in
  let results := layoutResults x in
  let stopwatch := layoutStopwatch x in
  update g (set_syncFuncs []) ;;
  update g (set_layout [] None) ;;
  syncMutex_Unlock g ;;
  (if (0 <? length results)%nat then applyLayoutResults results stopwatch else ret tt) ;;
  run_funcs funcs.

(** ** WindowGroup: the tooltip *)

Definition error := string.

(** Modelled from the spec: [NewToolTip] is not under src/.  It returns a
    handle or an error; the world's [newToolTipErrs] says which, call by
    call.  A tooltip that is constructed adds a reference for itself to the
    group during its window initialisation; the spec says it is this same
    group, so the model takes the group as an argument. *)
Definition NewToolTip (fuel : nat) (g : loc) : M (option ToolTipPtr * option error) :=
  errs <- gets newToolTipErrs ;;
  next <- gets nextToolTip ;;
  match errs with
  | true :: rest =>
      modify (set_toolTips rest next) ;;
      ret (None, Some "NewToolTip failed")
  | _ =>
      modify (set_toolTips (tail errs) (S next)) ;;
      emit (EvNewToolTip next) ;;
      Add fuel g 1 ;;
      ret (Some next, None)
  end.

Definition CreateToolTip (fuel : nat) (g : loc) : M (option ToolTipPtr * option error) :=
  x <- load g ;;
  match toolTip x with
  | Some tip => ret (Some tip, None)
  | None =>
      r <- NewToolTip fuel g ;;
      match r with
      | (_, Some err) => ret (None, Some err)
      | (tip, None) =>
          update g (set_toolTip tip) ;;
          ignore fuel g 1 ;;
          ret (tip, None)
      end
  end.

(** ** The manager *)

Definition newWindowGroup (threadID : N) (completion : Completion) : M loc :=
  g <- gets (fun w => length (heap w)) ;;
  modify (fun w => set_heap (heap w ++ [freshGroup threadID completion]) w) ;;
  ret g.

Definition Group (threadID : N) : M (option loc) :=
  mutex_RLock ;;
  gs <- gets (fun w => groups (wgm w)) ;;
  let r := match gs with
           | None => None
           | Some m => m !! threadID
           end in
  mutex_RUnlock ;;
  ret r.

Definition CreateGroup (fuel : nat) (threadID : N) : M loc :=
  (* Fast path with read lock *)
  mutex_RLock ;;
  gs <- gets (fun w => groups (wgm w)) ;;
  match gs ≫= (fun m : gmap N loc => m !! threadID) with
  | Some group =>
      mutex_RUnlock ;;
      Add fuel group 1 ;;
      ret group
  | None =>
      mutex_RUnlock ;;
      (* Slow path with write lock *)
      mutex_Lock ;;
      gs <- gets (fun w => groups (wgm w)) ;;
      let create : M loc :=
        group <- newWindowGroup threadID ComplRemoveGroup ;;
        Add fuel group 1 ;;
        gs <- gets (fun w => groups (wgm w)) ;;
        match gs with
        | Some m => set_groups (Some (<[threadID := group]> m))
        | None => panic "assignment to entry in nil map"
        end ;;
        mutex_Unlock ;;
        ret group in
      match gs with
      | None => set_groups (Some ∅) ;; create
      | Some m =>
          match m !! threadID with
          | Some group =>
              mutex_Unlock ;;
              Add fuel group 1 ;;
              ret group
          | None => create
          end
      end
  end.

(** ** Thread-lock helpers *)

Definition msgThreadedOnly : string := "call me only in threaded mode".

Definition MsgLoopMutex_Lock : M unit :=
  held <- gets MsgLoopMutex ;;
  if held then block else modify (set_MsgLoopMutex true).

Definition MsgLoopMutex_Unlock : M unit :=
  held <- gets MsgLoopMutex ;;
  if held then modify (set_MsgLoopMutex false)
  else panic "fatal error: sync: unlock of unlocked mutex".

Definition runtime_LockOSThread : M unit :=
  modify (fun w => set_osThreadPins (S (osThreadPins w)) w).

Definition runtime_UnlockOSThread : M unit :=
  modify (fun w => set_osThreadPins (pred (osThreadPins w)) w).

Definition LockThread : M unit :=
  t <- gets Threaded ;;
  if t then MsgLoopMutex_Lock else ret tt.

Definition UnlockThread : M unit :=
  t <- gets Threaded ;;
  if t then MsgLoopMutex_Unlock else ret tt.

Definition EnterThread : M unit :=
  t <- gets Threaded ;;
  if negb t then panic msgThreadedOnly
  else runtime_LockOSThread ;; LockThread.

Definition LeaveThread : M unit :=
  t <- gets Threaded ;;
  if negb t then panic msgThreadedOnly
  else UnlockThread ;; runtime_UnlockOSThread.

(** [defer LockThread()] runs when [f] returns and when it panics. *)
Definition RunUnlocked (f : Callback) : M unit :=
  UnlockThread ;;
  fun w =>
    match call f w with
    | Ok _ w' => LockThread w'
    | Panic msg w' =>
        match LockThread w' with
        | Ok _ w'' => Panic msg w''
        | r => r
        end
    | r => r
    end.

(** ** Observations used by the statements *)

(** The world with group [g] replaced, and the world with one more event. *)
Definition put (g : loc) (y : WindowGroup) (w : World) : World :=
  set_heap (<[g := y]> (heap w)) w.
Definition log (e : Event) (w : World) : World :=
  set_trace (trace w ++ [e]) w.

(** The world an outcome leaves behind, if the call got that far. *)
Definition world_of {A} (r : Result A) : option World :=
  match r with
  | Ok _ w => Some w
  | Panic _ w => Some w
  | Blocked w => Some w
  | OutOfFuel => None
  end.

(** How many times [dispose] was entered on [g]. *)
Fixpoint disposals (g : loc) (tr : list Event) : nat :=
  match tr with
  | [] => O
  | EvDispose g' :: rest =>
      ((if Nat.eqb g g' then 1 else 0) + disposals g rest)%nat
  | _ :: rest => disposals g rest
  end.

(** The callbacks [RunSynchronized] called, oldest first. *)
Fixpoint invoked (tr : list Event) : list Callback :=
  match tr with
  | [] => []
  | EvInvoke f :: rest => f :: invoked rest
  | _ :: rest => invoked rest
  end.

(** The layout batches handed to [applyLayoutResults], oldest first. *)
Fixpoint applied (tr : list Event) : list (list LayoutResult * option Stopwatch) :=
  match tr with
  | [] => []
  | EvApplyLayout r s :: rest => (r, s) :: applied rest
  | _ :: rest => applied rest
  end.

(** The callbacks that running [f] queues on group [g]. *)
Fixpoint enqueues (g : loc) (f : Callback) : list Callback :=
  match f with
  | CbSynchronize g' f' => if Nat.eqb g g' then [f'] else []
  | CbSeq a b => enqueues g a ++ enqueues g b
  | _ => []
  end.

(** A client's calls on one group, one after the other; a panic ends the run. *)
Inductive RefCall : Type :=
| CallAdd (delta : Z)
| CallDone.

Definition run_call (fuel : nat) (g : loc) (c : RefCall) : M unit :=
  match c with
  | CallAdd delta => Add fuel g delta
  | CallDone => Done fuel g
  end.

Fixpoint run_calls (fuel : nat) (g : loc) (cs : list RefCall) : M unit :=
  match cs with
  | [] => ret tt
  | c :: rest => run_call fuel g c ;; run_calls fuel g rest
  end.

Definition countersInRange (x : WindowGroup) : Prop :=
  GoInt.inRange (refs x) /\ GoInt.inRange (ignored x).

(** Worlds for the examples: nothing allocated; one fresh group of thread 7
    that no manager knows; a group of thread 7 with three references, two of
    them ignored, registered with the manager. *)
Definition emptyWorld : World :=
  mkWorld [] (mkManager RWFree None) false false 0 [] 0%nat [].

Definition freshWorld : World :=
  set_heap [freshGroup 7 ComplRemoveGroup] emptyWorld.

Definition registeredWorld : World :=
  mkWorld [set_ignored 2 (set_refs 3 (freshGroup 7 ComplRemoveGroup))]
    (mkManager RWFree (Some {[ 7%N := 0%nat ]})) false false 0 [] 0%nat [].

(** The manager once [removeGroup threadID] has run. *)
Definition unregister (threadID : N) (w : World) : World :=
  set_wgm (mkManager (mutex (wgm w)) (delete threadID <$> groups (wgm w))) w.

(** What is left of [dispose] on group [x] once the tooltip is gone. *)
Definition disposed (g : loc) (x : WindowGroup) (w : World) : World :=
  unregister (threadID x)
    (log (EvCompletion (threadID x)) (put g (set_removed true x) w)).

(** Group [x] once its tooltip has released its reference and is forgotten. *)
Definition released (x : WindowGroup) : WindowGroup :=
  set_toolTip None (set_refs (refs x - 1) x).

(** The outcome of [dispose] on a group whose record is [x], entered the way
    [Add] and [ignore] enter it: not removed and with [refs = ignored]. *)
Definition dispose_outcome (g : loc) (x : WindowGroup) (w : World) : Result unit :=
  let w0 := log (EvDispose g) w in
  match toolTip x with
  | None =>
      match mutex (wgm w) with
      | RWFree => Ok tt (disposed g x w0)
      | _ => Blocked (log (EvCompletion (threadID x)) (put g (set_removed true x) w0))
      end
  | Some tip =>
      let w1 := log (EvToolTipDispose tip) w0 in
      if refs x =? 0 then Panic msgNegativeRefs (put g (set_refs (-1) x) w1)
      else
        match mutex (wgm w) with
        | RWFree => Ok tt (disposed g (released x) w1)
        | _ => Blocked (log (EvCompletion (threadID x))
                          (put g (set_removed true (released x)) w1))
        end
  end.

(** What holds of the group after [cs] calls that all returned. *)
Definition afterCalls (g : loc) (w : World) (cs : list RefCall) (w' : World) : Prop :=
  exists y,
    heap w' !! g = Some y /\ toolTip y = None /\ ignored y = 0 /\
    GoInt.inRange (refs y) /\ 0 <= refs y /\ mutex (wgm w') = RWFree /\
    ((removed y = false /\ (cs <> [] -> 0 < refs y) /\
      disposals g (trace w') = disposals g (trace w)) \/
     (removed y = true /\ refs y = 0 /\ cs <> [] /\
      disposals g (trace w') = S (disposals g (trace w)))).


Definition windowWorld : World :=
  mkWorld [set_refs 1 (freshGroup 7 ComplRemoveGroup)]
    (mkManager RWFree (Some {[ 7%N := 0%nat ]})) false false 0 [] 0%nat [].

(** The fresh group of thread 7 with one callback queued, which will queue
    a marking callback on the same group when it runs. *)
Definition queuedWorld : World :=
  set_heap [set_syncFuncs [CbSynchronize 0%nat (CbMark 3)]
              (freshGroup 7 ComplRemoveGroup)] emptyWorld.

(** The fresh group of thread 7 after a [CreateToolTip] that disposed of it:
    the tooltip has come and gone, the group is marked removed. *)
Definition disposedFreshWorld : World :=
  mkWorld [set_removed true (set_ignored 1 (freshGroup 7 ComplRemoveGroup))]
    (mkManager RWFree None) false false 0 [] 1%nat
    [EvNewToolTip 0%nat; EvDispose 0%nat; EvToolTipDispose 0%nat; EvCompletion 7].

(** [queuedWorld] after one drain: the callback was called and the marking
    callback it queued is waiting. *)
Definition drainedQueuedWorld : World :=
  set_trace [EvInvoke (CbSynchronize 0%nat (CbMark 3))]
    (set_heap [set_syncFuncs [CbMark 3] (freshGroup 7 ComplRemoveGroup)] emptyWorld).

(** [freshWorld] after a drain that applied the layout batch [20; 21]. *)
Definition laidOutWorld : World :=
  set_trace [EvApplyLayout [20%nat; 21%nat] (Some 2%nat)] freshWorld.

(** ** Relations between the world before and after a call *)

(** [R] holds between the world a call starts in and the world it leaves
    behind, however the call ends. *)
Definition always {A} (R : World -> World -> Prop) (m : M A) : Prop :=
  forall w w', world_of (m w) = Some w' -> R w w'.

(** No group was allocated and the groups other than [g] are as they were. *)
Definition sameOthers (g : loc) (w w' : World) : Prop :=
  length (heap w') = length (heap w) /\
  forall g', g' <> g -> heap w' !! g' = heap w !! g'.




(** [CreateGroup] called [n] times in a row for one thread. *)
Fixpoint CreateGroup_times (fuel : nat) (threadID : N) (n : nat) : M (list loc) :=
  match n with
  | O => ret []
  | S k =>
      g <- CreateGroup fuel threadID ;;
      gs <- CreateGroup_times fuel threadID k ;;
      ret (g :: gs)
  end.

(** A registered group of thread 7 with one window and its tooltip: two
    references, of which the tooltip's is ignored. *)
Definition windowToolTipWorld : World :=
  mkWorld [set_toolTip (Some 0%nat)
             (set_ignored 1 (set_refs 2 (freshGroup 7 ComplRemoveGroup)))]
    (mkManager RWFree (Some {[ 7%N := 0%nat ]})) false false 0 [] 1%nat [].

(** A registered group of thread 7 that holds its tooltip but no reference
    at all: what [Add(-2)] leaves of [windowToolTipWorld]. *)
Definition shortGroupWorld : World :=
  mkWorld [set_toolTip (Some 0%nat) (set_ignored 1 (freshGroup 7 ComplRemoveGroup))]
    (mkManager RWFree (Some {[ 7%N := 0%nat ]})) false false 0 [] 1%nat [].

(** The record of events only grew. *)
Definition traceGrows (w w' : World) : Prop :=
  exists tr, trace w' = trace w ++ tr.


(** * Image lists

    The index caches of [ImageList] and of the image-index helpers.  The
    functions of package [win] are external: a call is written down with its
    arguments, and what it returns is taken from the world, call by call. *)

Module ImageList.

(** A value that comes back as an [int32]. *)
Definition wrap32 (z : Z) : Z := (z + 2 ^ 31) mod 2 ^ 32 - 2 ^ 31.

(** A [*Bitmap] or [*Icon] that is not nil: the address of the object, which
    is what the caches are keyed by, and what the code reads from it. *)
Record Bitmap : Type := mkBitmap { bitmapAddr : positive; hBmp : Z }.
Record Icon : Type := mkIcon { iconAddr : positive; handleForDPI : Z -> Z }.

(** [Bitmap.handle()] is not under src/; it is taken to return the handle
    stored in the bitmap, the field [imageIndexAddIfNotExists] reads. *)
Definition handle (b : Bitmap) : Z := hBmp b.

(** An [image interface{}]: the nil interface, a string (a resource name or
    a file path), a [*Bitmap] or an [*Icon], which may be nil pointers, or a
    value of any other type. *)
Inductive Image : Type :=
| ImageNil
| ImageString (s : string)
| ImageBitmap (p : option Bitmap)
| ImageIcon (p : option Icon)
| ImageOther.

Inductive Call : Type :=
| CallImageList_Add (hIml hbmImage hbmMask : Z)
| CallImageList_AddMasked (hIml hbmImage crMask : Z)
| CallImageList_ReplaceIcon (hIml i hIcon : Z)
| CallImageList_Destroy (hIml : Z)
| CallSHGetFileInfo (path : string).

(** The outside of the package. *)
Record Win : Type := mkWin {
  returns : list Z;                       (* results of the coming ImageList_* calls *)
  fileInfo : string -> Z * Z;             (* SHGetFileInfo: list handle, icon index *)
  Resources_Image : string -> Image * option string;   (* image, error *)
  calls : list Call
}.

Definition called (c : Call) (w : Win) : Win :=
  mkWin (returns w) (fileInfo w) (Resources_Image w) (calls w ++ [c]).

(** An [ImageList_*] call that returns an index: the next value of the
    world, as an [int32]; -1, the failure value, when the world has no more. *)
Definition win_index (c : Call) (w : Win) : Z * Win :=
  (wrap32 (hd (-1) (returns w)),
   mkWin (tl (returns w)) (fileInfo w) (Resources_Image w) (calls w ++ [c])).

Record Size : Type := mkSize { Width : Z; Height : Z }.

Record ImageList : Type := mkImageList {
  hIml : Z;
  maskColor : Z;
  imageSize96dpi : Size;
  colorMaskedBitmap2Index : option (gmap positive Z);     (* None: the nil map *)
  bitmapMaskedBitmap2Index : option (gmap (positive * option positive) Z)
}.

(** How a call ends: it returns, or it panics after the calls written down
    in the world. *)
Inductive Outcome (A : Type) : Type :=
| Returns (a : A) (w : Win)
| Panics (msg : string) (w : Win).
Arguments Returns {A} a w.
Arguments Panics {A} msg w.

(** The list that [newImageList] builds around a handle it got. *)
Definition newList (h : Z) (imageSize : Size) (mask : Z) : ImageList :=
  mkImageList h mask imageSize (Some ∅) (Some ∅).

Definition Handle (il : ImageList) : Z := hIml il.
Definition MaskColor (il : ImageList) : Z := maskColor il.

Definition Add (il : ImageList) (bitmap maskBitmap : option Bitmap) (w : Win)
  : Outcome ((Z * option string) * ImageList) :=
  match bitmap with
  | None => Returns ((0, Some "bitmap cannot be nil"), il) w
  | Some b =>
      let key := (bitmapAddr b, bitmapAddr <$> maskBitmap) in
      match bitmapMaskedBitmap2Index il ≫= (fun m => m !! key) with
      | Some index => Returns ((index, None), il) w
      | None =>
          let maskHandle :=
            match maskBitmap with
            | Some mb => handle mb
            | None => 0
            end in
          let (index, w') :=
            win_index (CallImageList_Add (hIml il) (handle b) maskHandle) w in
          if index =? -1 then Returns ((0, Some "ImageList_Add failed"), il) w'
          else
            match bitmapMaskedBitmap2Index il with
            | Some m =>
                Returns ((index, None),
                         mkImageList (hIml il) (maskColor il) (imageSize96dpi il)
                           (colorMaskedBitmap2Index il) (Some (<[key := index]> m))) w'
            | None => Panics "assignment to entry in nil map" w'
            end
      end
  end.

Definition AddMasked (il : ImageList) (bitmap : option Bitmap) (w : Win)
  : Outcome ((Z * option string) * ImageList) :=
  match bitmap with
  | None => Returns ((0, Some "bitmap cannot be nil"), il) w
  | Some b =>
      match colorMaskedBitmap2Index il ≫= (fun m => m !! bitmapAddr b) with
      | Some index => Returns ((wrap32 index, None), il) w
      | None =>
          let (index, w') :=
            win_index (CallImageList_AddMasked (hIml il) (handle b) (maskColor il)) w in
          if index =? -1 then Returns ((0, Some "ImageList_AddMasked failed"), il) w'
          else
            match colorMaskedBitmap2Index il with
            | Some m =>
                Returns ((index, None),
                         mkImageList (hIml il) (maskColor il) (imageSize96dpi il)
                           (Some (<[bitmapAddr b := index]> m))
                           (bitmapMaskedBitmap2Index il)) w'
            | None => Panics "assignment to entry in nil map" w'
            end
      end
  end.

Definition Dispose (il : ImageList) (w : Win) : ImageList * Win :=
  if hIml il =? 0 then (il, w)
  else (mkImageList 0 (maskColor il) (imageSize96dpi il)
          (colorMaskedBitmap2Index il) (bitmapMaskedBitmap2Index il),
        called (CallImageList_Destroy (hIml il)) w).

(** [syscall.StringToUTF16Ptr] panics on a string with a NUL in it. *)
Fixpoint hasNUL (s : string) : bool :=
  match s with
  | EmptyString => false
  | String c rest => if Ascii.eqb c Ascii.zero then true else hasNUL rest
  end.

Definition iconIndexAndHImlForFilePath (filePath : string) (w : Win)
  : Outcome (Z * Z) :=
  if hasNUL filePath
  then Panics "syscall: string with NUL passed to StringToUTF16" w
  else
    let (h, iIcon) := fileInfo w filePath in
    let w' := called (CallSHGetFileInfo filePath) w in
    if h =? 0 then Returns (-1, 0) w' else Returns (wrap32 iIcon, h) w'.

(** [uintptr(unsafe.Pointer(img))] after the type switch: the address of
    the bitmap or icon, 0 for a nil pointer and for every other image. *)
Definition pointerOf (image : Image) : N :=
  match image with
  | ImageBitmap (Some b) => Npos (bitmapAddr b)
  | ImageIcon (Some i) => Npos (iconAddr i)
  | _ => 0%N
  end.

Definition imageIndexAddIfNotExists (image : Image) (hIml : Z)
  (imageUintptr2Index : option (gmap N Z)) (dpi : Z) (w : Win)
  : Outcome (Z * option (gmap N Z)) :=
  match image with
  | ImageNil => Returns (-1, imageUintptr2Index) w
  | _ =>
      let image :=
        match image with
        | ImageString name => fst (Resources_Image w name)
        | _ => image
        end in
      let ptr := pointerOf image in
      if (ptr =? 0)%N then Returns (-1, imageUintptr2Index) w
      else
        match imageUintptr2Index ≫= (fun m => m !! ptr) with
        | Some imageIndex => Returns (imageIndex, imageUintptr2Index) w
        | None =>
            let (imageIndex, w') :=
              match image with
              | ImageBitmap (Some b) =>
                  win_index (CallImageList_AddMasked hIml (hBmp b) 0) w
              | ImageIcon (Some i) =>
                  win_index (CallImageList_ReplaceIcon hIml (-1) (handleForDPI i dpi)) w
              | _ => (-1, w)
              end in
            if -1 <? imageIndex
            then
              match imageUintptr2Index with
              | Some m => Returns (imageIndex, Some (<[ptr := imageIndex]> m)) w'
              | None => Panics "assignment to entry in nil map" w'
              end
            else Returns (imageIndex, imageUintptr2Index) w'
        end
  end.

Definition imageIndexMaybeAdd (image : Image) (hIml : Z) (isSysIml : bool)
  (imageUintptr2Index : option (gmap N Z))
  (filePath2IconIndex : option (gmap string Z)) (dpi : Z) (w : Win)
  : Outcome (Z * option (gmap N Z) * option (gmap string Z)) :=
  if negb isSysIml then
    match imageIndexAddIfNotExists image hIml imageUintptr2Index dpi w with
    | Returns (i, m) w' => Returns (i, m, filePath2IconIndex) w'
    | Panics msg w' => Panics msg w'
    end
  else
    match image with
    | ImageString filePath =>
        match filePath2IconIndex ≫= (fun m => m !! filePath) with
        | Some iIcon => Returns (iIcon, imageUintptr2Index, filePath2IconIndex) w
        | None =>
            match iconIndexAndHImlForFilePath filePath w with
            | Returns (iIcon, _) w' =>
                if iIcon =? -1
                then Returns (-1, imageUintptr2Index, filePath2IconIndex) w'
                else
                  match filePath2IconIndex with
                  | Some m =>
                      Returns (iIcon, imageUintptr2Index,
                               Some (<[filePath := iIcon]> m)) w'
                  | None => Panics "assignment to entry in nil map" w'
                  end
            | Panics msg w' => Panics msg w'
            end
        end
    | _ => Returns (-1, imageUintptr2Index, filePath2IconIndex) w
    end.

(** A world in which the native calls succeed with indices 0, 1, 2, and
    that knows one file. *)
Definition sampleWin : Win :=
  mkWin [0; 1; 2]
    (fun path => if String.eqb path "a.txt" then (77, 5) else (0, 0))
    (fun _ => (ImageNil, Some "no such resource"%string)) [].

Definition bitmapA : Bitmap := mkBitmap 1 100.
Definition bitmapB : Bitmap := mkBitmap 2 200.

End ImageList.

(** The world that [CreateGroup(7)], [CreateToolTip()] and [Add(-2)] make of
    the empty one: the group of thread 7 is registered and not removed, holds
    its tooltip, and has no reference left. *)
Definition overReleasedWorld : World :=
  mkWorld [set_toolTip (Some 0%nat) (set_ignored 1 (freshGroup 7 ComplRemoveGroup))]
    (mkManager RWFree (Some {[ 7%N := 0%nat ]})) false false 0 [] 1%nat
    [EvNewToolTip 0%nat].

(** What a [CreateGroup(7)] makes of [overReleasedWorld]. *)
Definition handedOutWorld : World :=
  mkWorld [set_removed true (set_ignored 1 (freshGroup 7 ComplRemoveGroup))]
    (mkManager RWFree (Some ∅)) false false 0 [] 1%nat
    [EvNewToolTip 0%nat; EvDispose 0%nat; EvToolTipDispose 0%nat; EvCompletion 7].

(** [RunUnlocked(f)] for any [func()]: a closure is whatever it does to the
    world.  [RunUnlocked] above is this function at a queued callback. *)
Definition RunUnlocked_func (f : M unit) : M unit :=
  UnlockThread ;;
  fun w =>
    match f w with
    | Ok _ w' => LockThread w'
    | Panic msg w' =>
        match LockThread w' with
        | Ok _ w'' => Panic msg w''
        | r => r
        end
    | r => r
    end.

(** * Properties *)

(** ** Arithmetic of [int] *)

Module GoIntFacts.
Import GoInt.

Lemma wrap_inRange z : inRange z -> wrap z = z.
Proof.
  unfold inRange, minInt, maxInt, wrap, intBits. intros Hz.
  change (2 ^ (64 - 1)) with 9223372036854775808 in *.
  change (2 ^ 64) with 18446744073709551616.
  rewrite Z.mod_small by lia. lia.
Qed.

Lemma wrap_range z : inRange (wrap z).
Proof.
  unfold inRange, minInt, maxInt, wrap, intBits.
  change (2 ^ (64 - 1)) with 9223372036854775808.
  change (2 ^ 64) with 18446744073709551616.
  pose proof (Z.mod_pos_bound (z + 9223372036854775808) 18446744073709551616).
  lia.
Qed.

Lemma wrap_eq_iff a b :
  wrap a = wrap b <-> exists k, a - b = k * 2 ^ intBits.
Proof.
  unfold wrap, intBits.
  change (2 ^ (64 - 1)) with 9223372036854775808.
  change (2 ^ 64) with 18446744073709551616.
  split.
  - intros H.
    assert (Hm : (a + 9223372036854775808) mod 18446744073709551616
                 = (b + 9223372036854775808) mod 18446744073709551616) by lia.
    exists ((a + 9223372036854775808) / 18446744073709551616
            - (b + 9223372036854775808) / 18446744073709551616).
    pose proof (Z.div_mod (a + 9223372036854775808) 18446744073709551616).
    pose proof (Z.div_mod (b + 9223372036854775808) 18446744073709551616).
    lia.
  - intros [k Hk].
    replace (a + 9223372036854775808)
      with (b + 9223372036854775808 + k * 18446744073709551616) by lia.
    now rewrite Z.mod_add by lia.
Qed.

(** [g.refs-g.ignored == 0] holds exactly when the two counters are equal. *)
Lemma sub_eq_0 a b : inRange a -> inRange b -> (sub a b = 0 <-> a = b).
Proof.
  intros Ha Hb. unfold sub.
  change 0 with (wrap 0) at 1. rewrite wrap_eq_iff.
  unfold inRange, minInt, maxInt, intBits in *.
  change (2 ^ (64 - 1)) with 9223372036854775808 in *.
  change (2 ^ 64) with 18446744073709551616.
  split.
  - intros [k Hk]. nia.
  - intros ->. exists 0. lia.
Qed.

(** Two counters that were different stay different when both move by the
    same amount, wrap-around or not. *)
Lemma add_cancel a b d : inRange a -> inRange b -> add a d = add b d -> a = b.
Proof.
  intros Ha Hb. unfold add. rewrite wrap_eq_iff. intros [k Hk].
  unfold inRange, minInt, maxInt, intBits in *.
  change (2 ^ (64 - 1)) with 9223372036854775808 in *.
  change (2 ^ 64) with 18446744073709551616 in *.
  nia.
Qed.

Lemma add_range a d : inRange (add a d).
Proof. apply wrap_range. Qed.

Lemma add_small a d : inRange (a + d) -> add a d = a + d.
Proof. apply wrap_inRange. Qed.

(** Stepping back by one from a counter that is not negative. *)
Lemma pred_nonneg a : inRange a -> 0 <= a -> add a (-1) = a - 1.
Proof.
  intros Ha H0. apply add_small.
  unfold inRange, minInt, maxInt, intBits in *.
  change (2 ^ (64 - 1)) with 9223372036854775808 in *. lia.
Qed.

End GoIntFacts.

(** ** Stepping through the code *)

Lemma load_ok w g x : heap w !! g = Some x -> load g w = Ok x w.
Proof. intros H. unfold load. now rewrite H. Qed.

Lemma update_ok w g x f :
  heap w !! g = Some x -> update g f w = Ok tt (put g (f x) w).
Proof. intros H. unfold update, bind. now rewrite (load_ok _ _ _ H). Qed.

Lemma put_lookup w g x y :
  heap w !! g = Some x -> heap (put g y w) !! g = Some y.
Proof.
  intros H. unfold put. cbn. apply list_lookup_insert_eq.
  eapply lookup_lt_Some, H.
Qed.

Lemma put_lookup_ne w g g' y : g <> g' -> heap (put g y w) !! g' = heap w !! g'.
Proof. intros H. unfold put. cbn. now apply list_lookup_insert_ne. Qed.

Lemma put_put g y z w : put g z (put g y w) = put g z w.
Proof. unfold put. cbn. now rewrite list_insert_insert_eq. Qed.

Lemma put_same w g x : heap w !! g = Some x -> put g x w = w.
Proof.
  intros H. unfold put. rewrite (list_insert_id _ _ _ H). now destruct w.
Qed.

Lemma removeGroup_ok w threadID :
  mutex (wgm w) = RWFree -> removeGroup threadID w = Ok tt (unregister threadID w).
Proof.
  intros H. unfold removeGroup, unregister, mutex_Lock, mutex_Unlock, bind, gets,
    set_mutex, set_groups, modify, ret.
  rewrite H. cbn. destruct (groups (wgm w)); cbn; reflexivity.
Qed.

Lemma removeGroup_blocked w threadID :
  mutex (wgm w) <> RWFree -> removeGroup threadID w = Blocked w.
Proof.
  intros H. unfold removeGroup, mutex_Lock, bind, gets.
  destruct (mutex (wgm w)); [congruence | reflexivity | reflexivity].
Qed.

Lemma Add_step n w g x delta :
  heap w !! g = Some x ->
  Add (S n) g delta w =
    if removed x then Panic msgAddRemoved w
    else
      let x' := set_refs (GoInt.add (refs x) delta) x in
      if GoInt.add (refs x) delta <? 0 then Panic msgNegativeRefs (put g x' w)
      else if GoInt.sub (GoInt.add (refs x) delta) (ignored x) =? 0
           then dispose_with (Add n) g (put g x' w)
           else Ok tt (put g x' w).
Proof.
  intros H. cbn [Add]. unfold bind at 1. rewrite (load_ok _ _ _ H).
  destruct (removed x); [reflexivity |].
  unfold bind at 1. rewrite (update_ok _ _ _ _ H).
  unfold bind at 1.
  rewrite (load_ok _ _ _ (put_lookup _ _ _ _ H)).
  cbn [refs ignored set_refs].
  destruct (GoInt.add (refs x) delta <? 0); [reflexivity |].
  destruct (GoInt.sub _ _ =? 0); reflexivity.
Qed.

Lemma ignore_step n w g x delta :
  heap w !! g = Some x ->
  ignore n g delta w =
    if removed x then Panic msgIgnoreRemoved w
    else
      let x' := set_ignored (GoInt.add (ignored x) delta) x in
      if GoInt.add (ignored x) delta <? 0 then Panic msgNegativeIgnored (put g x' w)
      else if GoInt.sub (refs x) (GoInt.add (ignored x) delta) =? 0
           then dispose n g (put g x' w)
           else Ok tt (put g x' w).
Proof.
  intros H. unfold ignore. unfold bind at 1. rewrite (load_ok _ _ _ H).
  destruct (removed x); [reflexivity |].
  unfold bind at 1. rewrite (update_ok _ _ _ _ H).
  unfold bind at 1.
  rewrite (load_ok _ _ _ (put_lookup _ _ _ _ H)).
  cbn [refs ignored set_ignored].
  destruct (GoInt.add (ignored x) delta <? 0); [reflexivity |].
  destruct (GoInt.sub _ _ =? 0); reflexivity.
Qed.

(** The tail of [dispose]: mark the group removed, then tell the manager. *)
Lemma dispose_tail w g x :
  heap w !! g = Some x ->
  (update g (set_removed true) ;;
   y <- load g ;;
   run_completion (completion y) (threadID y)) w =
    match mutex (wgm w) with
    | RWFree => Ok tt (disposed g x w)
    | _ => Blocked (log (EvCompletion (threadID x)) (put g (set_removed true x) w))
    end.
Proof.
  intros H. unfold bind at 1. rewrite (update_ok _ _ _ _ H).
  unfold bind at 1. rewrite (load_ok _ _ _ (put_lookup _ _ _ _ H)).
  cbn [completion threadID set_removed]. unfold run_completion.
  unfold bind at 1. unfold emit, modify at 1.
  destruct (completion x).
  destruct (mutex (wgm w)) eqn:Hm.
  - rewrite removeGroup_ok by (cbn; exact Hm). reflexivity.
  - rewrite removeGroup_blocked by (cbn; rewrite Hm; discriminate). reflexivity.
  - rewrite removeGroup_blocked by (cbn; rewrite Hm; discriminate). reflexivity.
Qed.

Lemma dispose_with_no_toolTip add w g x :
  heap w !! g = Some x -> toolTip x = None ->
  dispose_with add g w =
    match mutex (wgm w) with
    | RWFree => Ok tt (disposed g x (log (EvDispose g) w))
    | _ => Blocked (log (EvCompletion (threadID x))
                      (put g (set_removed true x) (log (EvDispose g) w)))
    end.
Proof.
  intros H Ht. unfold dispose_with. unfold bind at 1. unfold emit, modify at 1.
  unfold bind at 1. rewrite (load_ok (set_trace _ w) g x) by exact H.
  rewrite Ht. unfold bind at 1. unfold ret at 1.
  exact (dispose_tail (log (EvDispose g) w) g x H).
Qed.

Lemma dispose_with_toolTip add w g x tip :
  heap w !! g = Some x -> toolTip x = Some tip ->
  dispose_with add g w =
    match add g (-1) (log (EvToolTipDispose tip) (log (EvDispose g) w)) with
    | Ok _ w1 =>
        (update g (set_toolTip None) ;;
         update g (set_removed true) ;;
         y <- load g ;;
         run_completion (completion y) (threadID y)) w1
    | Panic msg w1 => Panic msg w1
    | Blocked w1 => Blocked w1
    | OutOfFuel => OutOfFuel
    end.
Proof.
  intros H Ht. unfold dispose_with. unfold bind at 1. unfold emit, modify at 1.
  unfold bind at 1. rewrite (load_ok (set_trace _ w) g x) by exact H.
  rewrite Ht. unfold ToolTip_Dispose.
  unfold bind at 1. unfold bind at 1. unfold bind at 1.
  unfold emit, modify at 1. fold (log (EvDispose g) w).
  fold (log (EvToolTipDispose tip) (log (EvDispose g) w)).
  destruct (add g (-1) _); try reflexivity.
Qed.

(** [dispose] as [Add] and [ignore] reach it.  The tooltip's release runs
    while [removed] is still false, and it leaves [refs] one below [ignored],
    so it cannot start a second disposal. *)
Lemma dispose_with_outcome n w g x :
  heap w !! g = Some x ->
  countersInRange x -> removed x = false ->
  refs x = ignored x -> 0 <= refs x ->
  dispose_with (Add (S n)) g w = dispose_outcome g x w.
Proof.
  intros H [Hr Hi] Hrem Hlive Hpos. unfold dispose_outcome.
  destruct (toolTip x) as [tip|] eqn:Ht.
  - rewrite (dispose_with_toolTip _ _ _ _ _ H Ht).
    set (w1 := log (EvToolTipDispose tip) (log (EvDispose g) w)).
    assert (H1 : heap w1 !! g = Some x) by exact H.
    rewrite (Add_step n w1 g x (-1) H1). rewrite Hrem.
    rewrite (GoIntFacts.pred_nonneg _ Hr Hpos).
    destruct (refs x =? 0) eqn:E0.
    + apply Z.eqb_eq in E0. rewrite E0. reflexivity.
    + apply Z.eqb_neq in E0.
      destruct (refs x - 1 <? 0) eqn:En; [apply Z.ltb_lt in En; lia |].
      assert (Hr' : GoInt.inRange (refs x - 1)).
      { unfold GoInt.inRange, GoInt.minInt in *. lia. }
      assert (Hne : (GoInt.sub (refs x - 1) (ignored x) =? 0) = false).
      { apply Z.eqb_neq. intros Hs.
        pose proof (proj1 (GoIntFacts.sub_eq_0 _ _ Hr' Hi) Hs). lia. }
      rewrite Hne. cbv zeta.
      set (y := set_refs (refs x - 1) x).
      assert (H2 : heap (put g y w1) !! g = Some y) by exact (put_lookup _ _ _ _ H1).
      unfold bind at 1. rewrite (update_ok _ _ _ _ H2). rewrite put_put.
      change (set_toolTip None y) with (released x).
      assert (H3 : heap (put g (released x) w1) !! g = Some (released x))
        by exact (put_lookup _ _ _ _ H1).
      cbv beta. rewrite (dispose_tail _ _ _ H3). cbn [mutex wgm put set_heap w1 log set_trace].
      unfold disposed. rewrite put_put.
      destruct (mutex (wgm w)); reflexivity.
  - rewrite (dispose_with_no_toolTip _ _ _ _ H Ht). reflexivity.
Qed.

Lemma Add_outcome n w g x delta :
  heap w !! g = Some x -> countersInRange x ->
  Add (S (S n)) g delta w =
    if removed x then Panic msgAddRemoved w
    else
      let x' := set_refs (GoInt.add (refs x) delta) x in
      if GoInt.add (refs x) delta <? 0 then Panic msgNegativeRefs (put g x' w)
      else if GoInt.add (refs x) delta =? ignored x
           then dispose_outcome g x' (put g x' w)
           else Ok tt (put g x' w).
Proof.
  intros H [Hr Hi]. rewrite (Add_step _ _ _ _ _ H).
  destruct (removed x) eqn:Hrem; [reflexivity |]. cbv zeta.
  destruct (GoInt.add (refs x) delta <? 0) eqn:En; [reflexivity |].
  apply Z.ltb_ge in En.
  pose proof (GoIntFacts.sub_eq_0 _ _ (GoIntFacts.add_range (refs x) delta) Hi) as Hs.
  destruct (GoInt.add (refs x) delta =? ignored x) eqn:E.
  - apply Z.eqb_eq in E.
    rewrite (proj2 (Z.eqb_eq _ 0) (proj2 Hs E)).
    apply dispose_with_outcome.
    + exact (put_lookup _ _ _ _ H).
    + split; [apply GoIntFacts.add_range | exact Hi].
    + exact Hrem.
    + exact E.
    + exact En.
  - apply Z.eqb_neq in E.
    destruct (GoInt.sub (GoInt.add (refs x) delta) (ignored x) =? 0) eqn:E';
      [apply Z.eqb_eq in E'; tauto | reflexivity].
Qed.

Lemma ignore_outcome n w g x delta :
  heap w !! g = Some x -> countersInRange x ->
  ignore (S n) g delta w =
    if removed x then Panic msgIgnoreRemoved w
    else
      let x' := set_ignored (GoInt.add (ignored x) delta) x in
      if GoInt.add (ignored x) delta <? 0 then Panic msgNegativeIgnored (put g x' w)
      else if refs x =? GoInt.add (ignored x) delta
           then dispose_outcome g x' (put g x' w)
           else Ok tt (put g x' w).
Proof.
  intros H [Hr Hi]. rewrite (ignore_step _ _ _ _ _ H).
  destruct (removed x) eqn:Hrem; [reflexivity |]. cbv zeta.
  destruct (GoInt.add (ignored x) delta <? 0) eqn:En; [reflexivity |].
  apply Z.ltb_ge in En.
  pose proof (GoIntFacts.sub_eq_0 _ _ Hr (GoIntFacts.add_range (ignored x) delta)) as Hs.
  destruct (refs x =? GoInt.add (ignored x) delta) eqn:E.
  - apply Z.eqb_eq in E.
    rewrite (proj2 (Z.eqb_eq _ 0) (proj2 Hs E)).
    apply dispose_with_outcome.
    + exact (put_lookup _ _ _ _ H).
    + split; [exact Hr | apply GoIntFacts.add_range].
    + exact Hrem.
    + exact E.
    + cbn. lia.
  - apply Z.eqb_neq in E.
    destruct (GoInt.sub (refs x) (GoInt.add (ignored x) delta) =? 0) eqn:E';
      [apply Z.eqb_eq in E'; tauto | reflexivity].
Qed.

(** ** Counting disposals *)

Lemma disposals_app g tr1 tr2 :
  disposals g (tr1 ++ tr2) = (disposals g tr1 + disposals g tr2)%nat.
Proof.
  induction tr1 as [|e tr1 IH]; [reflexivity |].
  destruct e; cbn; rewrite IH; lia.
Qed.

Lemma dispose_outcome_disposals g x w :
  exists w', world_of (dispose_outcome g x w) = Some w' /\
             disposals g (trace w') = S (disposals g (trace w)).
Proof.
  unfold dispose_outcome.
  destruct (toolTip x); [destruct (refs x =? 0) |]; destruct (mutex (wgm w));
    eexists; (split; [reflexivity |]); cbn; rewrite !disposals_app; cbn;
    rewrite Nat.eqb_refl; lia.
Qed.

(** ** Reference counting: when disposal fires *)

(** C9.  On a group that is not removed, a call of [Add] or of [ignore]
    enters [dispose] if and only if the counter it updates is not negative
    and the updated counters satisfy [refs - ignored == 0]; otherwise the
    number of disposals does not change.  In particular an [Add] that leaves
    [refs] non-negative but below [ignored] returns normally with nothing
    changed but [refs]: the group is not disposed of, stays registered with
    the manager as it was, and has negative liveness. *)
Theorem dispose_iff_liveness_zero n w g x delta :
  heap w !! g = Some x -> countersInRange x -> removed x = false ->
  (exists w', world_of (Add (S (S n)) g delta w) = Some w' /\
     (disposals g (trace w') = S (disposals g (trace w)) <->
        0 <= GoInt.add (refs x) delta /\
        GoInt.sub (GoInt.add (refs x) delta) (ignored x) = 0) /\
     (disposals g (trace w') = S (disposals g (trace w)) \/
      disposals g (trace w') = disposals g (trace w)))
  /\
  (exists w', world_of (ignore (S n) g delta w) = Some w' /\
     (disposals g (trace w') = S (disposals g (trace w)) <->
        0 <= GoInt.add (ignored x) delta /\
        GoInt.sub (refs x) (GoInt.add (ignored x) delta) = 0) /\
     (disposals g (trace w') = S (disposals g (trace w)) \/
      disposals g (trace w') = disposals g (trace w)))
  /\
  (0 <= GoInt.add (refs x) delta < ignored x ->
   let w' := put g (set_refs (GoInt.add (refs x) delta) x) w in
   Add (S (S n)) g delta w = Ok tt w' /\
   wgm w' = wgm w /\ trace w' = trace w /\
   exists y, heap w' !! g = Some y /\ removed y = false /\ refs y - ignored y < 0).
Proof.
  intros H Hc Hrem. destruct Hc as [Hr Hi].
  pose proof (GoIntFacts.sub_eq_0 _ _ (GoIntFacts.add_range (refs x) delta) Hi) as Hs.
  pose proof (GoIntFacts.sub_eq_0 _ _ Hr (GoIntFacts.add_range (ignored x) delta)) as Hs'.
  split; [| split].
  - rewrite (Add_outcome _ _ _ _ _ H (conj Hr Hi)), Hrem. cbv zeta.
    destruct (GoInt.add (refs x) delta <? 0) eqn:En.
    + apply Z.ltb_lt in En. eexists. split; [reflexivity |]. cbn. split; [| now right].
      split; [intros Hd; exfalso; revert Hd; clear; lia | intros [? _]; lia].
    + apply Z.ltb_ge in En.
      destruct (GoInt.add (refs x) delta =? ignored x) eqn:E.
      * apply Z.eqb_eq in E.
        destruct (dispose_outcome_disposals g
                    (set_refs (GoInt.add (refs x) delta) x)
                    (put g (set_refs (GoInt.add (refs x) delta) x) w))
          as (w' & Hw' & Hd).
        exists w'. split; [exact Hw' |]. cbn in Hd. split; [| now left].
        split; [intros _; split; [exact En | now apply Hs] | intros _; exact Hd].
      * apply Z.eqb_neq in E. eexists. split; [reflexivity |]. cbn.
        split; [| now right]. split; [intros Hd; exfalso; revert Hd; clear; lia | intros [_ Hz]; apply Hs in Hz; contradiction].
  - rewrite (ignore_outcome _ _ _ _ _ H (conj Hr Hi)), Hrem. cbv zeta.
    destruct (GoInt.add (ignored x) delta <? 0) eqn:En.
    + apply Z.ltb_lt in En. eexists. split; [reflexivity |]. cbn. split; [| now right].
      split; [intros Hd; exfalso; revert Hd; clear; lia | intros [? _]; lia].
    + apply Z.ltb_ge in En.
      destruct (refs x =? GoInt.add (ignored x) delta) eqn:E.
      * apply Z.eqb_eq in E.
        destruct (dispose_outcome_disposals g
                    (set_ignored (GoInt.add (ignored x) delta) x)
                    (put g (set_ignored (GoInt.add (ignored x) delta) x) w))
          as (w' & Hw' & Hd).
        exists w'. split; [exact Hw' |]. cbn in Hd. split; [| now left].
        split; [intros _; split; [exact En | now apply Hs'] | intros _; exact Hd].
      * apply Z.eqb_neq in E. eexists. split; [reflexivity |]. cbn.
        split; [| now right]. split; [intros Hd; exfalso; revert Hd; clear; lia | intros [_ Hz]; apply Hs' in Hz; contradiction].
  - intros [H0 Hlt]. cbv zeta.
    rewrite (Add_outcome _ _ _ _ _ H (conj Hr Hi)), Hrem. cbv zeta.
    destruct (GoInt.add (refs x) delta <? 0) eqn:En; [apply Z.ltb_lt in En; lia |].
    destruct (GoInt.add (refs x) delta =? ignored x) eqn:E; [apply Z.eqb_eq in E; lia |].
    split; [reflexivity |]. split; [reflexivity |]. split; [reflexivity |].
    eexists. split; [exact (put_lookup _ _ _ _ H) |]. cbn. split; [exact Hrem | lia].
Qed.

(** The case the claim names: three references, two of them ignored, and
    [Add(-2)] on the group registered for thread 7. *)
Lemma dispose_iff_liveness_zero_witness :
  Add 2 0%nat (-2) registeredWorld
  = Ok tt (put 0%nat (set_refs 1 (set_ignored 2 (set_refs 3 (freshGroup 7 ComplRemoveGroup))))
             registeredWorld).
Proof.
  refine (proj1 (proj2 (proj2
    (dispose_iff_liveness_zero 0 registeredWorld 0%nat
       (set_ignored 2 (set_refs 3 (freshGroup 7 ComplRemoveGroup))) (-2)
       eq_refl _ eq_refl)) _)).
  - split; vm_compute; split; discriminate.
  - vm_compute. split; [discriminate | reflexivity].
Defined.

(** ** What a disposal leaves behind *)

Lemma dispose_outcome_Ok g x x0 w w' :
  heap w !! g = Some x0 ->
  dispose_outcome g x w = Ok tt w' ->
  let y := set_removed true
             (match toolTip x with Some _ => released x | None => x end) in
  heap w' !! g = Some y /\
  (toolTip x <> None -> refs x <> 0) /\
  groups (wgm w') = delete (threadID x) <$> groups (wgm w) /\
  mutex (wgm w) = RWFree /\ mutex (wgm w') = RWFree.
Proof.
  intros H. unfold dispose_outcome.
  destruct (toolTip x) as [tip|] eqn:Ht.
  - destruct (refs x =? 0) eqn:E0; [discriminate |]. apply Z.eqb_neq in E0.
    destruct (mutex (wgm w)) eqn:Hm; try discriminate.
    intros [= <-]. cbv zeta. split; [| split; [| split; [| split]]].
    + apply (put_lookup _ _ x0). exact H.
    + intros _. exact E0.
    + reflexivity.
    + reflexivity.
    + cbn. exact Hm.
  - destruct (mutex (wgm w)) eqn:Hm; try discriminate.
    intros [= <-]. cbv zeta. split; [| split; [| split; [| split]]].
    + apply (put_lookup _ _ x0). exact H.
    + intros Hn. now contradiction Hn.
    + reflexivity.
    + reflexivity.
    + cbn. exact Hm.
Qed.

Lemma dispose_outcome_Panic g x w msg w' :
  dispose_outcome g x w = Panic msg w' ->
  msg = msgNegativeRefs /\ refs x = 0 /\ toolTip x <> None.
Proof.
  unfold dispose_outcome.
  destruct (toolTip x) as [tip|] eqn:Ht.
  - destruct (refs x =? 0) eqn:E0.
    + intros [= <- _]. apply Z.eqb_eq in E0. now repeat split.
    + destruct (mutex (wgm w)); discriminate.
  - destruct (mutex (wgm w)); discriminate.
Qed.

(** ** Reference counting: the fatal stops *)

(** C6 as stated fails: [ignore(-1)] on a fresh group, which is not removed,
    panics because the ignored counter went negative. *)
Lemma fatal_conditions_counterexample :
  ignore 1 0%nat (-1) freshWorld
  = Panic msgNegativeIgnored
      (put 0%nat (set_ignored (-1) (freshGroup 7 ComplRemoveGroup)) freshWorld)
  /\ removed <$> heap freshWorld !! 0%nat = Some false.
Proof. split; reflexivity. Qed.

(** C6, amended.  [Add] and [ignore] panic on a removed group, before they
    touch it; on a group that is not removed [Add] panics when the updated
    [refs] is negative and [ignore] panics when the updated [ignored] is
    negative; a call that returns never leaves its counter negative.  A panic
    of [Add] or [ignore] has no other cause, except that the disposal they
    trigger panics when the tooltip releases a reference the group does not
    hold ([refs] is zero). *)
Theorem fatal_conditions n w g x delta :
  heap w !! g = Some x -> countersInRange x ->
  (removed x = true ->
     Add (S (S n)) g delta w = Panic msgAddRemoved w /\
     ignore (S n) g delta w = Panic msgIgnoreRemoved w)
  /\
  (removed x = false -> GoInt.add (refs x) delta < 0 ->
     Add (S (S n)) g delta w
     = Panic msgNegativeRefs (put g (set_refs (GoInt.add (refs x) delta) x) w))
  /\
  (removed x = false -> GoInt.add (ignored x) delta < 0 ->
     ignore (S n) g delta w
     = Panic msgNegativeIgnored (put g (set_ignored (GoInt.add (ignored x) delta) x) w))
  /\
  (forall w', Add (S (S n)) g delta w = Ok tt w' ->
     exists y, heap w' !! g = Some y /\ 0 <= refs y)
  /\
  (forall w', ignore (S n) g delta w = Ok tt w' ->
     exists y, heap w' !! g = Some y /\ 0 <= ignored y)
  /\
  (forall msg w', Add (S (S n)) g delta w = Panic msg w' ->
     (removed x = true /\ msg = msgAddRemoved) \/
     (removed x = false /\ msg = msgNegativeRefs /\
        (GoInt.add (refs x) delta < 0 \/
         (GoInt.add (refs x) delta = 0 /\ ignored x = 0 /\ toolTip x <> None))))
  /\
  (forall msg w', ignore (S n) g delta w = Panic msg w' ->
     (removed x = true /\ msg = msgIgnoreRemoved) \/
     (removed x = false /\ msg = msgNegativeIgnored /\
        GoInt.add (ignored x) delta < 0) \/
     (removed x = false /\ msg = msgNegativeRefs /\
        refs x = 0 /\ GoInt.add (ignored x) delta = 0 /\ toolTip x <> None)).
Proof.
  intros H Hc.
  rewrite (Add_outcome _ _ _ _ _ H Hc), (ignore_outcome _ _ _ _ _ H Hc).
  destruct (removed x) eqn:Hrem.
  { repeat split; try discriminate.
    - intros msg w' [= <- _]. now left.
    - intros msg w' [= <- _]. now left. }
  cbv zeta.
  split; [discriminate |].
  split; [intros _ Hn; now rewrite (proj2 (Z.ltb_lt _ _) Hn) |].
  split; [intros _ Hn; now rewrite (proj2 (Z.ltb_lt _ _) Hn) |].
  split; [| split; [| split]].
  - intros w'. destruct (GoInt.add (refs x) delta <? 0) eqn:En; [discriminate |].
    apply Z.ltb_ge in En.
    destruct (GoInt.add (refs x) delta =? ignored x) eqn:E.
    + intros Hd.
      destruct (dispose_outcome_Ok _ _ _ _ _ (put_lookup _ _ _ _ H) Hd)
        as (Hy & Hnz & _).
      eexists. split; [exact Hy |]. cbn in *.
      destruct (toolTip x); cbn; [| exact En].
      assert (GoInt.add (refs x) delta <> 0) by (apply Hnz; discriminate). lia.
    + intros [= <-]. eexists. split; [exact (put_lookup _ _ _ _ H) |]. exact En.
  - intros w'. destruct (GoInt.add (ignored x) delta <? 0) eqn:En; [discriminate |].
    apply Z.ltb_ge in En.
    destruct (refs x =? GoInt.add (ignored x) delta) eqn:E.
    + intros Hd.
      destruct (dispose_outcome_Ok _ _ _ _ _ (put_lookup _ _ _ _ H) Hd)
        as (Hy & _).
      eexists. split; [exact Hy |]. cbn.
      destruct (toolTip x); cbn; exact En.
    + intros [= <-]. eexists. split; [exact (put_lookup _ _ _ _ H) |]. exact En.
  - intros msg w'.
    destruct (GoInt.add (refs x) delta <? 0) eqn:En.
    + apply Z.ltb_lt in En. intros [= <- _]. right.
      split; [reflexivity |]. split; [reflexivity | now left].
    + destruct (GoInt.add (refs x) delta =? ignored x) eqn:E; [| discriminate].
      apply Z.eqb_eq in E. intros Hd.
      destruct (dispose_outcome_Panic _ _ _ _ _ Hd) as (-> & Hz & Ht). cbn in Hz, Ht.
      right. split; [reflexivity |]. split; [reflexivity |].
      right. split; [exact Hz |]. split; [lia | exact Ht].
  - intros msg w'.
    destruct (GoInt.add (ignored x) delta <? 0) eqn:En.
    + apply Z.ltb_lt in En. intros [= <- _]. right. left. now repeat split.
    + destruct (refs x =? GoInt.add (ignored x) delta) eqn:E; [| discriminate].
      apply Z.eqb_eq in E. intros Hd.
      destruct (dispose_outcome_Panic _ _ _ _ _ Hd) as (-> & Hz & Ht). cbn in Hz, Ht.
      right. right. split; [reflexivity |]. split; [reflexivity |].
      split; [exact Hz |]. split; [lia | exact Ht].
Qed.

Lemma fatal_conditions_witness :
  Add 2 0%nat (-1) freshWorld
  = Panic msgNegativeRefs
      (put 0%nat (set_refs (-1) (freshGroup 7 ComplRemoveGroup)) freshWorld).
Proof.
  refine (proj1 (proj2
    (fatal_conditions 0 freshWorld 0%nat (freshGroup 7 ComplRemoveGroup) (-1)
       eq_refl _)) eq_refl _).
  - split; vm_compute; split; discriminate.
  - vm_compute. reflexivity.
Defined.

(** ** Reference counting: sequences of Add and Done on a fresh group *)

(** Without a tooltip one unit of fuel is enough: [dispose] never re-enters
    [Add]. *)
Lemma Add_outcome_no_toolTip n w g x delta :
  heap w !! g = Some x -> countersInRange x -> toolTip x = None ->
  Add (S n) g delta w =
    if removed x then Panic msgAddRemoved w
    else
      let x' := set_refs (GoInt.add (refs x) delta) x in
      if GoInt.add (refs x) delta <? 0 then Panic msgNegativeRefs (put g x' w)
      else if GoInt.add (refs x) delta =? ignored x
           then dispose_outcome g x' (put g x' w)
           else Ok tt (put g x' w).
Proof.
  intros H [Hr Hi] Ht. rewrite (Add_step _ _ _ _ _ H).
  destruct (removed x) eqn:Hrem; [reflexivity |]. cbv zeta.
  destruct (GoInt.add (refs x) delta <? 0) eqn:En; [reflexivity |].
  pose proof (GoIntFacts.sub_eq_0 _ _ (GoIntFacts.add_range (refs x) delta) Hi) as Hs.
  destruct (GoInt.add (refs x) delta =? ignored x) eqn:E.
  - apply Z.eqb_eq in E.
    rewrite (proj2 (Z.eqb_eq _ 0) (proj2 Hs E)).
    rewrite (dispose_with_no_toolTip (Add n) _ g _
               (put_lookup w g x (set_refs (GoInt.add (refs x) delta) x) H) Ht).
    unfold dispose_outcome. cbn [toolTip set_refs]. rewrite Ht. reflexivity.
  - apply Z.eqb_neq in E.
    destruct (GoInt.sub (GoInt.add (refs x) delta) (ignored x) =? 0) eqn:E';
      [apply Z.eqb_eq in E'; tauto | reflexivity].
Qed.

Lemma run_calls_app fuel g cs1 cs2 w :
  run_calls fuel g (cs1 ++ cs2) w
  = (run_calls fuel g cs1 ;; run_calls fuel g cs2) w.
Proof.
  revert w. induction cs1 as [|c cs1 IH]; intros w; [reflexivity |].
  cbn [app run_calls]. unfold bind.
  destruct (run_call fuel g c w); try reflexivity. rewrite IH. reflexivity.
Qed.

Lemma run_call_Add fuel g c :
  run_call fuel g c
  = Add fuel g (match c with CallAdd delta => delta | CallDone => -1 end).
Proof. now destruct c. Qed.

Lemma afterCalls_step n g w pre c w1 w' :
  afterCalls g w pre w1 ->
  run_call (S n) g c w1 = Ok tt w' ->
  afterCalls g w (pre ++ [c]) w' /\
  exists y1, heap w1 !! g = Some y1 /\ removed y1 = false.
Proof.
  intros (y & Hy & Ht & Hi & Hr & H0 & Hm & Hcase) Hrun.
  rewrite run_call_Add in Hrun.
  assert (Hc : countersInRange y).
  { split; [exact Hr |]. rewrite Hi. vm_compute. split; discriminate. }
  rewrite (Add_outcome_no_toolTip _ _ _ _ _ Hy Hc Ht) in Hrun.
  destruct (removed y) eqn:Hrem; [discriminate |].
  destruct Hcase as [(_ & _ & Hd) | (? & _)]; [| discriminate].
  split; [| exists y; now split].
  cbv zeta in Hrun.
  set (d := match c with CallAdd delta => delta | CallDone => -1 end) in *.
  destruct (GoInt.add (refs y) d <? 0) eqn:En; [discriminate |].
  apply Z.ltb_ge in En.
  assert (Hne : pre ++ [c] <> []) by (destruct pre; discriminate).
  destruct (GoInt.add (refs y) d =? ignored y) eqn:E.
  - apply Z.eqb_eq in E.
    destruct (dispose_outcome_Ok _ _ _ _ _ (put_lookup _ _ _ _ Hy) Hrun)
      as (Hy' & _ & _ & _ & Hm').
    cbn [toolTip set_refs] in Hy'. rewrite Ht in Hy'.
    eexists. split; [exact Hy' |]. cbn.
    split; [exact Ht |]. split; [exact Hi |].
    split; [apply GoIntFacts.add_range |]. split; [exact En |].
    split; [exact Hm' |]. right.
    split; [reflexivity |]. split; [lia |]. split; [exact Hne |].
    unfold dispose_outcome in Hrun. cbn [toolTip set_refs] in Hrun.
    rewrite Ht in Hrun. cbn [mutex wgm put set_heap] in Hrun. rewrite Hm in Hrun.
    injection Hrun as <-. cbn. rewrite !disposals_app. cbn.
    rewrite Nat.eqb_refl, Hd. lia.
  - apply Z.eqb_neq in E. injection Hrun as <-.
    eexists. split; [exact (put_lookup _ _ _ _ Hy) |]. cbn.
    split; [exact Ht |]. split; [exact Hi |].
    split; [apply GoIntFacts.add_range |]. split; [exact En |].
    split; [exact Hm |]. left.
    split; [exact Hrem |]. split; [intros _; lia | exact Hd].
Qed.

Lemma afterCalls_run n g w cs w' :
  afterCalls g w [] w ->
  run_calls (S n) g cs w = Ok tt w' ->
  afterCalls g w cs w'.
Proof.
  intros Hinit. revert w'. induction cs as [|c pre IH] using rev_ind; intros w'.
  - intros [= <-]. exact Hinit.
  - rewrite run_calls_app. unfold bind at 1.
    destruct (run_calls (S n) g pre w) as [[] w1| | |] eqn:Hpre; try discriminate.
    cbn [run_calls]. unfold bind at 1.
    destruct (run_call (S n) g c w1) as [[] w2| | |] eqn:Hc; try discriminate.
    intros [= <-].
    exact (proj1 (afterCalls_step _ _ _ _ _ _ _ (IH _ eq_refl) Hc)).
Qed.

(** C1.  Calls of [Add] and [Done] on a fresh group (zero references, no
    tooltip), each returning normally: the liveness [refs - ignored] is never
    negative; [dispose] has been entered once if a call made the liveness
    reach zero and not at all otherwise, and the call that did was the last
    one, the liveness being positive after every earlier call; from then on
    the group is marked removed and every [Add] or [ignore] panics before it
    touches the counters.  While the group is not removed the next call
    returns unless it would make [refs] negative, in which case it panics. *)
Theorem add_done_on_fresh_group n w g threadID c cs w' :
  heap w !! g = Some (freshGroup threadID c) ->
  mutex (wgm w) = RWFree ->
  run_calls (S n) g cs w = Ok tt w' ->
  exists y,
    heap w' !! g = Some y /\
    0 <= refs y - ignored y /\
    (removed y = true <-> cs <> [] /\ refs y - ignored y = 0) /\
    disposals g (trace w')
    = (disposals g (trace w) + (if removed y then 1 else 0))%nat /\
    (removed y = true ->
     forall m delta,
       Add (S m) g delta w' = Panic msgAddRemoved w' /\
       ignore m g delta w' = Panic msgIgnoreRemoved w') /\
    (removed y = false ->
     forall c',
       let d := match c' with CallAdd delta => delta | CallDone => -1 end in
       (GoInt.add (refs y) d < 0 ->
        exists w'', run_call (S n) g c' w' = Panic msgNegativeRefs w'') /\
       (0 <= GoInt.add (refs y) d ->
        exists w'', run_call (S n) g c' w' = Ok tt w'')) /\
    (forall pre c', cs = pre ++ [c'] ->
     exists w1 y1,
       run_calls (S n) g pre w = Ok tt w1 /\
       heap w1 !! g = Some y1 /\ removed y1 = false /\
       disposals g (trace w1) = disposals g (trace w) /\
       (pre <> [] -> 0 < refs y1 - ignored y1)).
Proof.
  intros Hfresh Hm Hrun.
  assert (Hinit : afterCalls g w [] w).
  { exists (freshGroup threadID c). split; [exact Hfresh |].
    split; [reflexivity |]. split; [reflexivity |].
    split; [vm_compute; split; discriminate |]. split; [cbn; lia |].
    split; [exact Hm |]. left. split; [reflexivity |].
    split; [intros Hn; now contradiction Hn | reflexivity]. }
  destruct (afterCalls_run _ _ _ _ _ Hinit Hrun)
    as (y & Hy & Ht & Hi & Hr & H0 & Hm' & Hcase).
  assert (Hc : countersInRange y).
  { split; [exact Hr |]. rewrite Hi. vm_compute. split; discriminate. }
  exists y. split; [exact Hy |]. split; [lia |].
  split; [| split; [| split; [| split]]].
  - destruct Hcase as [(Hrem & Hpos & _) | (Hrem & Hz & Hne & _)]; rewrite Hrem.
    + split; [discriminate |]. intros [Hne Hz]. specialize (Hpos Hne). lia.
    + split; [intros _; split; [exact Hne | lia] | reflexivity].
  - destruct Hcase as [(Hrem & _ & Hd) | (Hrem & _ & _ & Hd)]; rewrite Hrem, Hd; lia.
  - intros Hrem m delta. split.
    + rewrite (Add_step _ _ _ _ _ Hy), Hrem. reflexivity.
    + rewrite (ignore_step _ _ _ _ _ Hy), Hrem. reflexivity.
  - intros Hrem c'. cbv zeta. rewrite run_call_Add.
    rewrite (Add_outcome_no_toolTip _ _ _ _ _ Hy Hc Ht), Hrem. cbv zeta.
    set (d := match c' with CallAdd delta => delta | CallDone => -1 end).
    split.
    + intros Hn. rewrite (proj2 (Z.ltb_lt _ _) Hn). eexists. reflexivity.
    + intros Hn. rewrite (proj2 (Z.ltb_ge _ _) Hn).
      destruct (GoInt.add (refs y) d =? ignored y); [| eexists; reflexivity].
      unfold dispose_outcome. cbn [toolTip set_refs mutex wgm put set_heap].
      rewrite Ht, Hm'. eexists. reflexivity.
  - intros pre c' ->. rewrite run_calls_app in Hrun. unfold bind at 1 in Hrun.
    destruct (run_calls (S n) g pre w) as [[] w1| | |] eqn:Hpre; try discriminate.
    cbn [run_calls] in Hrun. unfold bind at 1 in Hrun.
    destruct (run_call (S n) g c' w1) as [[] w2| | |] eqn:Hc'; try discriminate.
    pose proof (afterCalls_run _ _ _ _ _ Hinit Hpre) as Hpre'.
    destruct (afterCalls_step _ _ _ _ _ _ _ Hpre' Hc') as (_ & y1 & Hy1 & Hrem1).
    destruct Hpre' as (y1' & Hy1' & _ & Hi1 & _ & _ & _ & Hcase1).
    rewrite Hy1 in Hy1'. injection Hy1' as <-.
    exists w1, y1. split; [reflexivity |]. split; [exact Hy1 |].
    split; [exact Hrem1 |].
    destruct Hcase1 as [(_ & Hpos & Hd) | (Hrem & _)]; [| congruence].
    split; [exact Hd |]. intros Hne. specialize (Hpos Hne). lia.
Qed.

(** One window attaches to the fresh group of thread 7 and detaches again. *)
Lemma add_done_on_fresh_group_witness :
  exists w',
    run_calls 1 0%nat [CallAdd 1; CallDone] freshWorld = Ok tt w' /\
    exists y, heap w' !! 0%nat = Some y /\ removed y = true /\
              disposals 0%nat (trace w') = 1%nat.
Proof.
  eexists. split; [vm_compute; reflexivity |].
  destruct (add_done_on_fresh_group 0 freshWorld 0%nat 7 ComplRemoveGroup
              [CallAdd 1; CallDone] _ eq_refl eq_refl eq_refl)
    as (y & Hy & _ & Hrem & _).
  exists y. split; [exact Hy |].
  split; [apply Hrem; vm_compute in Hy; injection Hy as <- |];
    vm_compute; (split; [discriminate | reflexivity]) || reflexivity.
Defined.

(** ** Thread-lock helpers in single-thread mode *)

(** C8 as stated fails: with the flag off, [EnterThread] does not return;
    it panics. *)
Lemma thread_helpers_counterexample :
  Threaded emptyWorld = false /\
  EnterThread emptyWorld = Panic msgThreadedOnly emptyWorld.
Proof. split; reflexivity. Qed.

(** C8, amended.  While [Threaded] is false, [LockThread] and [UnlockThread]
    return normally and change nothing: no lock is taken or released and no
    thread is pinned.  [EnterThread] and [LeaveThread] change nothing either,
    but they stop with the panic "call me only in threaded mode". *)
Theorem thread_helpers_single_thread w :
  Threaded w = false ->
  LockThread w = Ok tt w /\
  UnlockThread w = Ok tt w /\
  EnterThread w = Panic msgThreadedOnly w /\
  LeaveThread w = Panic msgThreadedOnly w.
Proof.
  intros H.
  unfold LockThread, UnlockThread, EnterThread, LeaveThread, bind, gets.
  rewrite H. repeat split.
Qed.

Lemma thread_helpers_single_thread_witness :
  LockThread emptyWorld = Ok tt emptyWorld /\
  UnlockThread emptyWorld = Ok tt emptyWorld /\
  EnterThread emptyWorld = Panic msgThreadedOnly emptyWorld /\
  LeaveThread emptyWorld = Panic msgThreadedOnly emptyWorld.
Proof. exact (thread_helpers_single_thread emptyWorld eq_refl). Defined.

(** ** The order of the steps of dispose *)




(** ** The cached tooltip *)

Lemma add_one_nonneg a :
  GoInt.inRange a -> 0 <= GoInt.add a 1 -> GoInt.add a 1 = a + 1.
Proof.
  intros Ha H0.
  destruct (Z.eq_dec a GoInt.maxInt) as [-> | Hne].
  - vm_compute in H0. now contradiction H0.
  - apply GoIntFacts.add_small.
    unfold GoInt.inRange, GoInt.minInt, GoInt.maxInt in *. lia.
Qed.

Lemma NewToolTip_outcome fuel g w :
  NewToolTip fuel g w =
    match newToolTipErrs w with
    | true :: rest =>
        Ok (None, Some "NewToolTip failed"%string) (set_toolTips rest (nextToolTip w) w)
    | errs =>
        match Add fuel g 1
                (log (EvNewToolTip (nextToolTip w))
                   (set_toolTips (tail errs) (S (nextToolTip w)) w)) with
        | Ok _ w' => Ok (Some (nextToolTip w), None) w'
        | Panic msg w' => Panic msg w'
        | Blocked w' => Blocked w'
        | OutOfFuel => OutOfFuel
        end
    end.
Proof.
  unfold NewToolTip, bind, gets, modify, emit, ret.
  destruct (newToolTipErrs w) as [|[|] rest]; reflexivity.
Qed.

(** C7 as stated fails: on a fresh group the first [CreateToolTip] returns a
    handle and no error, but its [ignore(1)] makes the liveness zero and
    disposes of the group; the second call constructs again and panics. *)
Lemma createToolTip_counterexample :
  CreateToolTip 2 0%nat freshWorld = Ok (Some 0%nat, None) disposedFreshWorld /\
  CreateToolTip 2 0%nat disposedFreshWorld
  = Panic msgAddRemoved
      (log (EvNewToolTip 1%nat) (set_toolTips [] 2%nat disposedFreshWorld)).
Proof. split; vm_compute; reflexivity. Qed.

(** C7, amended.  On a group whose liveness is not zero ([refs] differs from
    [ignored]) and on which [CreateToolTip] has returned a handle and no
    error, any further [CreateToolTip] returns the same handle and no error
    and changes nothing at all: no tooltip is constructed, no counter moves.
    If the first call had to construct the tooltip, it constructed exactly
    one, added one to [ignored] for the one reference the tooltip added, and
    so kept the liveness; if the tooltip was already there, the first call
    changed nothing either. *)
Theorem createToolTip_cached n w g x tip w1 :
  heap w !! g = Some x -> countersInRange x -> refs x <> ignored x ->
  CreateToolTip (S (S n)) g w = Ok (Some tip, None) w1 ->
  (forall m, CreateToolTip m g w1 = Ok (Some tip, None) w1) /\
  (toolTip x <> None -> w1 = w) /\
  (toolTip x = None ->
   trace w1 = trace w ++ [EvNewToolTip tip] /\
   exists y, heap w1 !! g = Some y /\ toolTip y = Some tip /\
             refs y = refs x + 1 /\ ignored y = ignored x + 1 /\
             refs y - ignored y = refs x - ignored x).
Proof.
  intros H Hc Hlive Hrun. pose proof Hc as [Hr Hi].
  unfold CreateToolTip in Hrun. unfold bind at 1 in Hrun.
  rewrite (load_ok _ _ _ H) in Hrun.
  destruct (toolTip x) as [t|] eqn:Ht.
  - injection Hrun as <- <-.
    split; [| split; [reflexivity | discriminate]].
    intros m. unfold CreateToolTip, bind. rewrite (load_ok _ _ _ H), Ht. reflexivity.
  - unfold bind at 1 in Hrun. rewrite NewToolTip_outcome in Hrun.
    assert (Hgo : exists errs,
      match Add (S (S n)) g 1
              (log (EvNewToolTip (nextToolTip w))
                 (set_toolTips errs (S (nextToolTip w)) w)) with
      | Ok _ w' =>
          (update g (set_toolTip (Some (nextToolTip w))) ;;
           ignore (S (S n)) g 1 ;;
           ret (Some (nextToolTip w), None)) w'
      | Panic msg w' => Panic msg w'
      | Blocked w' => Blocked w'
      | OutOfFuel => OutOfFuel
      end = Ok (Some tip, @None error) w1).
    { destruct (newToolTipErrs w) as [|[|] rest].
      - exists []. destruct (Add _ _ _ _); exact Hrun.
      - discriminate.
      - exists rest. destruct (Add _ _ _ _); exact Hrun. }
    clear Hrun. destruct Hgo as [errs Hrun].
    set (wa := log (EvNewToolTip (nextToolTip w))
                 (set_toolTips errs (S (nextToolTip w)) w)) in *.
    assert (Ha : heap wa !! g = Some x) by exact H.
    rewrite (Add_outcome _ _ _ _ _ Ha Hc) in Hrun.
    destruct (removed x) eqn:Hrem; [discriminate |]. cbv zeta in Hrun.
    destruct (GoInt.add (refs x) 1 <? 0) eqn:En; [discriminate |].
    apply Z.ltb_ge in En.
    set (x1 := set_refs (GoInt.add (refs x) 1) x) in *.
    destruct (GoInt.add (refs x) 1 =? ignored x) eqn:E.
    { (* the tooltip's own reference made the liveness zero: the group is
         disposed of, and ignore(1) panics on it *)
      destruct (dispose_outcome g x1 (put g x1 wa)) as [[] wd| | |] eqn:Hd;
        try discriminate.
      destruct (dispose_outcome_Ok _ _ _ _ _ (put_lookup _ _ _ x1 Ha) Hd) as (Hy & _).
      unfold bind at 1 in Hrun. rewrite (update_ok _ _ _ _ Hy) in Hrun.
      unfold bind at 1 in Hrun.
      rewrite (ignore_step _ _ _ _ _ (put_lookup _ _ _ _ Hy)) in Hrun.
      cbn [removed set_toolTip set_removed] in Hrun. discriminate. }
    apply Z.eqb_neq in E.
    unfold bind at 1 in Hrun.
    rewrite (update_ok _ _ _ _ (put_lookup _ _ _ x1 Ha)), put_put in Hrun.
    set (x2 := set_toolTip (Some (nextToolTip w)) x1) in *.
    assert (H2 : heap (put g x2 wa) !! g = Some x2) by exact (put_lookup _ _ _ _ Ha).
    assert (Hc2 : countersInRange x2).
    { split; [apply GoIntFacts.add_range | exact Hi]. }
    unfold bind at 1 in Hrun.
    rewrite (ignore_outcome _ _ _ _ _ H2 Hc2) in Hrun.
    cbn [removed refs ignored x2 x1 set_toolTip set_refs] in Hrun.
    rewrite Hrem in Hrun. cbv zeta in Hrun.
    destruct (GoInt.add (ignored x) 1 <? 0) eqn:En'; [discriminate |].
    apply Z.ltb_ge in En'.
    destruct (GoInt.add (refs x) 1 =? GoInt.add (ignored x) 1) eqn:E'.
    { apply Z.eqb_eq in E'. apply GoIntFacts.add_cancel in E'; [| exact Hr | exact Hi].
      contradiction. }
    rewrite put_put in Hrun. unfold ret in Hrun. injection Hrun as <- <-.
    pose proof (put_lookup _ _ _ (set_ignored (GoInt.add (ignored x) 1) x2) Ha) as H3.
    split; [| split; [intros Hn; now contradiction Hn |]].
    + intros m. unfold CreateToolTip, bind. rewrite (load_ok _ _ _ H3). reflexivity.
    + intros _. split; [reflexivity |].
      eexists. split; [exact H3 |]. split; [reflexivity |]. cbn.
      rewrite (add_one_nonneg _ Hr En), (add_one_nonneg _ Hi En'). lia.
Qed.

(** The group that has one window creates its tooltip, twice. *)
Lemma createToolTip_cached_witness :
  exists w1,
    CreateToolTip 2 0%nat windowWorld = Ok (Some 0%nat, None) w1 /\
    CreateToolTip 2 0%nat w1 = Ok (Some 0%nat, None) w1.
Proof.
  eexists. split; [vm_compute; reflexivity |].
  refine (proj1 (createToolTip_cached 0 windowWorld 0%nat
                   (set_refs 1 (freshGroup 7 ComplRemoveGroup)) 0%nat _
                   eq_refl _ _ _) 2%nat).
  - split; vm_compute; split; discriminate.
  - vm_compute. discriminate.
  - vm_compute. reflexivity.
Defined.

(** ** CreateGroup *)

Lemma lookup_fresh_loc (h : list WindowGroup) x : (h ++ [x]) !! length h = Some x.
Proof. now rewrite list_lookup_middle. Qed.

(** C5 as stated fails.  [CreateGroup(7)], [CreateToolTip()] and [Add(-2)]
    leave the group of thread 7 registered and not removed, with no reference
    and one ignored.  The next [CreateGroup(7)] returns that group, but its
    [Add(1)] has made the liveness zero: the group comes back disposed of,
    taken out of the manager's map, and with [refs] zero as before, not one. *)
Lemma CreateGroup_counterexample :
  (g <- CreateGroup 3 7 ;; CreateToolTip 3 g ;; Add 3 g (-2)) emptyWorld
  = Ok tt overReleasedWorld /\
  Group 7 overReleasedWorld = Ok (Some 0%nat) overReleasedWorld /\
  (refs <$> heap overReleasedWorld !! 0%nat = Some 0 /\
   removed <$> heap overReleasedWorld !! 0%nat = Some false) /\
  CreateGroup 3 7 overReleasedWorld = Ok 0%nat handedOutWorld /\
  (refs <$> heap handedOutWorld !! 0%nat = Some 0 /\
   removed <$> heap handedOutWorld !! 0%nat = Some true) /\
  Group 7 handedOutWorld = Ok None handedOutWorld.
Proof. repeat split; vm_compute; reflexivity. Qed.



(** ** The synchronized queue *)

Lemma Synchronize_ok w g x f :
  heap w !! g = Some x -> syncMutex x = false ->
  Synchronize g f w = Ok tt (put g (set_syncFuncs (syncFuncs x ++ [f]) x) w).
Proof.
  intros H Hm. unfold Synchronize, syncMutex_Lock, syncMutex_Unlock.
  unfold bind at 1. unfold bind at 1. rewrite (load_ok _ _ _ H), Hm.
  rewrite (update_ok _ _ _ _ H).
  unfold bind at 1. rewrite (update_ok _ _ _ _ (put_lookup _ _ _ _ H)), put_put.
  unfold bind at 1. rewrite (load_ok _ _ _ (put_lookup _ _ _ _ H)).
  cbn [syncMutex set_syncFuncs set_syncMutex].
  rewrite (update_ok _ _ _ _ (put_lookup _ _ _ _ H)), put_put.
  destruct x. cbn in *. now subst.
Qed.

Lemma SynchronizeLayout_ok w g x results stopwatch :
  heap w !! g = Some x -> syncMutex x = false ->
  SynchronizeLayout g results stopwatch w
  = Ok tt (put g (set_layout results stopwatch x) w).
Proof.
  intros H Hm. unfold SynchronizeLayout, syncMutex_Lock, syncMutex_Unlock.
  unfold bind at 1. unfold bind at 1. rewrite (load_ok _ _ _ H), Hm.
  rewrite (update_ok _ _ _ _ H).
  unfold bind at 1. rewrite (update_ok _ _ _ _ (put_lookup _ _ _ _ H)), put_put.
  unfold bind at 1. rewrite (load_ok _ _ _ (put_lookup _ _ _ _ H)).
  cbn [syncMutex set_layout set_syncMutex].
  rewrite (update_ok _ _ _ _ (put_lookup _ _ _ _ H)), put_put.
  destruct x. cbn in *. now subst.
Qed.

(** A [Synchronize] that returns found the group and found its lock free. *)
Lemma Synchronize_inv g f w w' :
  Synchronize g f w = Ok tt w' ->
  exists x, heap w !! g = Some x /\ syncMutex x = false /\
            w' = put g (set_syncFuncs (syncFuncs x ++ [f]) x) w.
Proof.
  intros Hrun. destruct (heap w !! g) as [x|] eqn:H.
  - destruct (syncMutex x) eqn:Hm.
    + unfold Synchronize, syncMutex_Lock in Hrun. unfold bind at 1 in Hrun.
      unfold bind at 1 in Hrun. rewrite (load_ok _ _ _ H), Hm in Hrun. discriminate.
    + rewrite (Synchronize_ok _ _ _ _ H Hm) in Hrun. injection Hrun as <-.
      exists x. now repeat split.
  - unfold Synchronize, syncMutex_Lock in Hrun. unfold bind at 1 in Hrun.
    unfold bind at 1 in Hrun. unfold load in Hrun. rewrite H in Hrun. discriminate.
Qed.

Lemma SynchronizeLayout_inv g results stopwatch w w' :
  SynchronizeLayout g results stopwatch w = Ok tt w' ->
  exists x, heap w !! g = Some x /\ syncMutex x = false /\
            w' = put g (set_layout results stopwatch x) w.
Proof.
  intros Hrun. destruct (heap w !! g) as [x|] eqn:H.
  - destruct (syncMutex x) eqn:Hm.
    + unfold SynchronizeLayout, syncMutex_Lock in Hrun. unfold bind at 1 in Hrun.
      unfold bind at 1 in Hrun. rewrite (load_ok _ _ _ H), Hm in Hrun. discriminate.
    + rewrite (SynchronizeLayout_ok _ _ _ _ _ H Hm) in Hrun. injection Hrun as <-.
      exists x. now repeat split.
  - unfold SynchronizeLayout, syncMutex_Lock in Hrun. unfold bind at 1 in Hrun.
    unfold bind at 1 in Hrun. unfold load in Hrun. rewrite H in Hrun. discriminate.
Qed.

(** [RunSynchronized] swaps the queue and the layout batch out while it holds
    the lock; what runs afterwards runs on the emptied group, lock released. *)
Lemma RunSynchronized_ok w g x :
  heap w !! g = Some x -> syncMutex x = false ->
  RunSynchronized g w =
    ((if (0 <? length (layoutResults x))%nat
      then applyLayoutResults (layoutResults x) (layoutStopwatch x)
      else ret tt) ;;
     run_funcs (syncFuncs x))
      (put g (set_layout [] None (set_syncFuncs [] x)) w).
Proof.
  intros H Hm. unfold RunSynchronized, syncMutex_Lock, syncMutex_Unlock.
  unfold bind at 1. unfold bind at 1. rewrite (load_ok _ _ _ H), Hm.
  rewrite (update_ok _ _ _ _ H).
  unfold bind at 1. rewrite (load_ok _ _ _ (put_lookup _ _ _ _ H)).
  cbv zeta. cbn [syncFuncs layoutResults layoutStopwatch set_syncMutex].
  unfold bind at 1. rewrite (update_ok _ _ _ _ (put_lookup _ _ _ _ H)), put_put.
  unfold bind at 1. rewrite (update_ok _ _ _ _ (put_lookup _ _ _ _ H)), put_put.
  unfold bind at 1. unfold bind at 1.
  rewrite (load_ok _ _ _ (put_lookup _ _ _ _ H)).
  cbn [syncMutex set_layout set_syncFuncs set_syncMutex].
  rewrite (update_ok _ _ _ _ (put_lookup _ _ _ _ H)), put_put.
  replace (set_syncMutex false
             (set_layout [] None (set_syncFuncs [] (set_syncMutex true x))))
    with (set_layout [] None (set_syncFuncs [] x))
    by (destruct x; cbn in *; now subst).
  reflexivity.
Qed.

Lemma invoked_app tr1 tr2 : invoked (tr1 ++ tr2) = invoked tr1 ++ invoked tr2.
Proof.
  induction tr1 as [|e tr1 IH]; [reflexivity |].
  destruct e; cbn; now rewrite IH.
Qed.

Lemma applied_app tr1 tr2 : applied (tr1 ++ tr2) = applied tr1 ++ applied tr2.
Proof.
  induction tr1 as [|e tr1 IH]; [reflexivity |].
  destruct e; cbn; now rewrite IH.
Qed.

(** What a callback that returns has done: it called no queued callback and
    applied no layout itself, and on every group it only appended to the
    queue what it enqueues there; the locks are as they were. *)
Lemma call_inv f w w' :
  call f w = Ok tt w' ->
  invoked (trace w') = invoked (trace w) /\
  applied (trace w') = applied (trace w) /\
  forall g x, heap w !! g = Some x ->
    exists x', heap w' !! g = Some x' /\
               syncFuncs x' = syncFuncs x ++ enqueues g f /\
               syncMutex x' = syncMutex x.
Proof.
  revert w w'. induction f as [n | g0 f' _ | g0 r s | a IHa b IHb | msg]; intros w w' Hrun.
  - cbn in Hrun. injection Hrun as <-. cbn.
    rewrite invoked_app, applied_app. cbn. rewrite !app_nil_r.
    split; [reflexivity |]. split; [reflexivity |].
    intros g x H. exists x. rewrite app_nil_r. now repeat split.
  - cbn [call] in Hrun. apply Synchronize_inv in Hrun as (x0 & H0 & Hm0 & ->).
    split; [reflexivity |]. split; [reflexivity |].
    intros g x H. cbn [enqueues].
    destruct (Nat.eqb g g0) eqn:Eg.
    + apply Nat.eqb_eq in Eg. subst g0. rewrite H0 in H. injection H as <-.
      eexists. split; [exact (put_lookup _ _ _ _ H0) |]. now split.
    + apply Nat.eqb_neq in Eg. exists x.
      rewrite put_lookup_ne by congruence. rewrite app_nil_r. now repeat split.
  - cbn [call] in Hrun. apply SynchronizeLayout_inv in Hrun as (x0 & H0 & Hm0 & ->).
    split; [reflexivity |]. split; [reflexivity |].
    intros g x H. cbn [enqueues]. rewrite app_nil_r.
    destruct (Nat.eq_dec g g0) as [-> | Hne].
    + rewrite H0 in H. injection H as <-.
      eexists. split; [exact (put_lookup _ _ _ _ H0) |]. now split.
    + exists x. rewrite put_lookup_ne by congruence. now repeat split.
  - cbn [call] in Hrun. unfold bind in Hrun.
    destruct (call a w) as [[] wa| | |] eqn:Ha; try discriminate.
    destruct (IHa _ _ Ha) as (Ia & La & Ga).
    destruct (IHb _ _ Hrun) as (Ib & Lb & Gb).
    split; [congruence |]. split; [congruence |].
    intros g x H. destruct (Ga g x H) as (xa & Hxa & Qa & Ma).
    destruct (Gb g xa Hxa) as (xb & Hxb & Qb & Mb).
    exists xb. split; [exact Hxb |]. cbn [enqueues].
    split; [rewrite Qb, Qa; now rewrite app_assoc | congruence].
  - discriminate.
Qed.

(** The loop over the swapped-out queue calls its callbacks in order, each
    once, and nothing else. *)
Lemma run_funcs_inv funcs w w' :
  run_funcs funcs w = Ok tt w' ->
  invoked (trace w') = invoked (trace w) ++ funcs /\
  applied (trace w') = applied (trace w) /\
  forall g x, heap w !! g = Some x ->
    exists x', heap w' !! g = Some x' /\
               syncFuncs x' = syncFuncs x ++ flat_map (enqueues g) funcs /\
               syncMutex x' = syncMutex x.
Proof.
  revert w w'. induction funcs as [|f rest IH]; intros w w' Hrun.
  - cbn in Hrun. injection Hrun as <-. rewrite app_nil_r.
    split; [reflexivity |]. split; [reflexivity |].
    intros g x H. exists x. cbn. rewrite app_nil_r. now repeat split.
  - cbn [run_funcs] in Hrun. unfold bind at 1 in Hrun. unfold emit, modify at 1 in Hrun.
    fold (log (EvInvoke f) w) in Hrun. unfold bind at 1 in Hrun.
    destruct (call f (log (EvInvoke f) w)) as [[] wf| | |] eqn:Hf; try discriminate.
    destruct (call_inv _ _ _ Hf) as (If & Lf & Gf).
    destruct (IH _ _ Hrun) as (Ir & Lr & Gr).
    cbn [trace log set_trace] in If, Lf. rewrite invoked_app in If.
    rewrite applied_app in Lf. cbn in If, Lf. rewrite app_nil_r in Lf.
    split; [rewrite Ir, If, <- app_assoc; reflexivity |].
    split; [congruence |].
    intros g x H. destruct (Gf g x H) as (xf & Hxf & Qf & Mf).
    destruct (Gr g xf Hxf) as (xr & Hxr & Qr & Mr).
    exists xr. split; [exact Hxr |]. cbn [flat_map].
    split; [rewrite Qr, Qf; now rewrite app_assoc | congruence].
Qed.

(** What [RunSynchronized] does once the lock is released. *)
Lemma drain_inv results stopwatch funcs w w' :
  ((if (0 <? length results)%nat then applyLayoutResults results stopwatch else ret tt) ;;
   run_funcs funcs) w = Ok tt w' ->
  invoked (trace w') = invoked (trace w) ++ funcs /\
  applied (trace w')
  = applied (trace w) ++ (if (0 <? length results)%nat then [(results, stopwatch)] else []) /\
  forall g x, heap w !! g = Some x ->
    exists x', heap w' !! g = Some x' /\
               syncFuncs x' = syncFuncs x ++ flat_map (enqueues g) funcs /\
               syncMutex x' = syncMutex x.
Proof.
  unfold bind. destruct (0 <? length results)%nat.
  - unfold applyLayoutResults, emit, modify. intros Hrun.
    destruct (run_funcs_inv _ _ _ Hrun) as (Hi & Hl & Hg).
    cbn [trace set_trace] in Hi, Hl. rewrite invoked_app in Hi.
    rewrite applied_app in Hl. cbn in Hi, Hl. rewrite app_nil_r in Hi.
    split; [exact Hi |]. split; [exact Hl |]. exact Hg.
  - unfold ret. intros Hrun.
    destruct (run_funcs_inv _ _ _ Hrun) as (Hi & Hl & Hg).
    rewrite app_nil_r. split; [exact Hi |]. split; [exact Hl |]. exact Hg.
Qed.

(** C2 as stated fails: when the first callback itself calls [Synchronize],
    the queue is not empty after the drain. *)
Lemma synchronize_then_drain_counterexample :
  exists w',
    (Synchronize 0%nat (CbSynchronize 0%nat (CbMark 3)) ;;
     Synchronize 0%nat (CbMark 2) ;;
     RunSynchronized 0%nat) freshWorld = Ok tt w' /\
    syncFuncs <$> heap w' !! 0%nat = Some [CbMark 3].
Proof. eexists. split; vm_compute; reflexivity. Qed.

(** C2, amended.  [Synchronize(f1)], [Synchronize(f2)] and one
    [RunSynchronized()] on a group whose queue lock is free: the drain takes
    the whole queue, which ends in [f1; f2], and empties the group's queue
    and layout batch while it holds the lock; with the lock released it
    applies the pending layout batch if that is not empty and then calls the
    callbacks it took in insertion order.  If the drain returns, it has
    called exactly those callbacks, each once, [f1] before [f2], and the
    queue holds exactly what the callbacks themselves enqueued on the group
    meanwhile: it is empty if they enqueued nothing. *)
Theorem synchronize_then_drain w g x f1 f2 :
  heap w !! g = Some x -> syncMutex x = false ->
  let w0 := put g (set_layout [] None (set_syncFuncs [] x)) w in
  let drain :=
    (if (0 <? length (layoutResults x))%nat
     then applyLayoutResults (layoutResults x) (layoutStopwatch x)
     else ret tt) ;;
    run_funcs (syncFuncs x ++ [f1; f2]) in
  (Synchronize g f1 ;; Synchronize g f2 ;; RunSynchronized g) w = drain w0 /\
  (exists x0, heap w0 !! g = Some x0 /\ syncFuncs x0 = [] /\ syncMutex x0 = false) /\
  forall w', drain w0 = Ok tt w' ->
    invoked (trace w') = invoked (trace w) ++ syncFuncs x ++ [f1; f2] /\
    exists x', heap w' !! g = Some x' /\ syncMutex x' = false /\
               syncFuncs x' = flat_map (enqueues g) (syncFuncs x ++ [f1; f2]) /\
               (flat_map (enqueues g) (syncFuncs x ++ [f1; f2]) = [] ->
                syncFuncs x' = []).
Proof.
  intros H Hm. cbv zeta.
  assert (H0 : heap (put g (set_layout [] None (set_syncFuncs [] x)) w) !! g
               = Some (set_layout [] None (set_syncFuncs [] x)))
    by exact (put_lookup _ _ _ _ H).
  split; [| split].
  - unfold bind at 1. rewrite (Synchronize_ok _ _ _ _ H Hm).
    unfold bind at 1.
    rewrite (Synchronize_ok _ _ _ f2 (put_lookup _ _ _ _ H)) by exact Hm.
    rewrite put_put.
    rewrite (RunSynchronized_ok _ _ _ (put_lookup _ _ _ _ H)) by exact Hm.
    rewrite put_put. cbn [syncFuncs layoutResults layoutStopwatch set_syncFuncs].
    rewrite <- app_assoc. reflexivity.
  - eexists. split; [exact H0 |]. now split.
  - intros w' Hrun. destruct (drain_inv _ _ _ _ _ Hrun) as (Hi & _ & Hg).
    split; [exact Hi |].
    destruct (Hg g _ H0) as (x' & Hx' & Hq & Hmx).
    exists x'. split; [exact Hx' |]. split; [rewrite Hmx; exact Hm |].
    cbn [syncFuncs set_layout set_syncFuncs] in Hq. cbn [app] in Hq.
    split; [exact Hq |]. intros He. now rewrite Hq.
Qed.

(** Two marking callbacks on the fresh group of thread 7. *)
Lemma synchronize_then_drain_witness :
  (Synchronize 0%nat (CbMark 1) ;; Synchronize 0%nat (CbMark 2) ;;
   RunSynchronized 0%nat) freshWorld
  = run_funcs [CbMark 1; CbMark 2] freshWorld.
Proof.
  refine (eq_trans
    (proj1 (synchronize_then_drain freshWorld 0%nat
              (freshGroup 7 ComplRemoveGroup) (CbMark 1) (CbMark 2) eq_refl eq_refl))
    _).
  reflexivity.
Defined.

(** ** Callbacks queued during a drain *)

(** C3.  A drain calls exactly the callbacks that were in the queue when it
    started.  A callback [f3] that one of them, [f], enqueues on the group
    with [Synchronize] is therefore not called by this drain: it is in the
    queue when the drain returns, the lock being free, and the next drain
    takes it and, if it returns, has called it. *)
Theorem enqueued_during_drain_runs_next w g x f f3 w1 :
  heap w !! g = Some x -> syncMutex x = false ->
  In f (syncFuncs x) -> In f3 (enqueues g f) ->
  RunSynchronized g w = Ok tt w1 ->
  invoked (trace w1) = invoked (trace w) ++ syncFuncs x /\
  exists x1,
    heap w1 !! g = Some x1 /\ syncMutex x1 = false /\
    syncFuncs x1 = flat_map (enqueues g) (syncFuncs x) /\
    In f3 (syncFuncs x1) /\
    RunSynchronized g w1 =
      ((if (0 <? length (layoutResults x1))%nat
        then applyLayoutResults (layoutResults x1) (layoutStopwatch x1)
        else ret tt) ;;
       run_funcs (syncFuncs x1))
        (put g (set_layout [] None (set_syncFuncs [] x1)) w1) /\
    forall w2, RunSynchronized g w1 = Ok tt w2 ->
      invoked (trace w2) = invoked (trace w1) ++ syncFuncs x1.
Proof.
  intros H Hm Hf Hf3 Hrun.
  rewrite (RunSynchronized_ok _ _ _ H Hm) in Hrun.
  destruct (drain_inv _ _ _ _ _ Hrun) as (Hi & _ & Hg).
  split; [exact Hi |].
  destruct (Hg g _ (put_lookup _ _ _ _ H)) as (x1 & Hx1 & Hq & Hmx).
  cbn [syncFuncs syncMutex set_layout set_syncFuncs app] in Hq, Hmx.
  exists x1. split; [exact Hx1 |]. split; [congruence |]. split; [exact Hq |].
  split.
  - rewrite Hq. apply in_flat_map. exists f. now split.
  - assert (Hm1 : syncMutex x1 = false) by congruence.
    split; [exact (RunSynchronized_ok _ _ _ Hx1 Hm1) |].
    intros w2 Hrun2. rewrite (RunSynchronized_ok _ _ _ Hx1 Hm1) in Hrun2.
    exact (proj1 (drain_inv _ _ _ _ _ Hrun2)).
Qed.

Lemma enqueued_during_drain_runs_next_witness :
  RunSynchronized 0%nat queuedWorld = Ok tt drainedQueuedWorld /\
  invoked (trace drainedQueuedWorld) = [CbSynchronize 0%nat (CbMark 3)] /\
  exists x1, heap drainedQueuedWorld !! 0%nat = Some x1 /\ In (CbMark 3) (syncFuncs x1).
Proof.
  assert (Hrun : RunSynchronized 0%nat queuedWorld = Ok tt drainedQueuedWorld)
    by (vm_compute; reflexivity).
  split; [exact Hrun |].
  destruct (enqueued_during_drain_runs_next queuedWorld 0%nat
              (set_syncFuncs [CbSynchronize 0%nat (CbMark 3)]
                 (freshGroup 7 ComplRemoveGroup))
              (CbSynchronize 0%nat (CbMark 3)) (CbMark 3) drainedQueuedWorld
              eq_refl eq_refl (or_introl eq_refl) (or_introl eq_refl) Hrun)
    as (Hi & x1 & Hx1 & _ & _ & Hin & _).
  split; [exact Hi |]. exists x1. split; [exact Hx1 | exact Hin].
Defined.

(** ** Layout batches *)

(** C4.  Two layout batches submitted with [SynchronizeLayout] and then one
    [RunSynchronized()], on a group whose queue lock is free: the outcome is
    the one of submitting the second batch alone, so nothing is left of the
    first.  The drain hands to [applyLayoutResults] the second batch with its
    stopwatch, once, if the batch is not empty, and nothing if it is empty;
    the callbacks apply no layout themselves. *)
Theorem layout_last_writer_wins w g x r1 s1 r2 s2 :
  heap w !! g = Some x -> syncMutex x = false ->
  (SynchronizeLayout g r1 s1 ;; SynchronizeLayout g r2 s2 ;; RunSynchronized g) w
  = (SynchronizeLayout g r2 s2 ;; RunSynchronized g) w /\
  (SynchronizeLayout g r2 s2 ;; RunSynchronized g) w
  = ((if (0 <? length r2)%nat then applyLayoutResults r2 s2 else ret tt) ;;
     run_funcs (syncFuncs x))
      (put g (set_layout [] None (set_syncFuncs [] x)) w) /\
  forall w',
    (SynchronizeLayout g r1 s1 ;; SynchronizeLayout g r2 s2 ;; RunSynchronized g) w
    = Ok tt w' ->
    applied (trace w')
    = applied (trace w) ++ (if (0 <? length r2)%nat then [(r2, s2)] else []) /\
    exists x', heap w' !! g = Some x' /\
      (flat_map (enqueues g) (syncFuncs x) = [] -> syncFuncs x' = []).
Proof.
  intros H Hm.
  assert (E2 : (SynchronizeLayout g r2 s2 ;; RunSynchronized g) w
               = ((if (0 <? length r2)%nat then applyLayoutResults r2 s2 else ret tt) ;;
                  run_funcs (syncFuncs x))
                   (put g (set_layout [] None (set_syncFuncs [] x)) w)).
  { unfold bind at 1. rewrite (SynchronizeLayout_ok _ _ _ _ _ H Hm).
    rewrite (RunSynchronized_ok _ _ _ (put_lookup _ _ _ _ H)) by exact Hm.
    rewrite put_put. reflexivity. }
  assert (E1 : (SynchronizeLayout g r1 s1 ;; SynchronizeLayout g r2 s2 ;;
                RunSynchronized g) w
               = (SynchronizeLayout g r2 s2 ;; RunSynchronized g) w).
  { rewrite E2. unfold bind at 1. rewrite (SynchronizeLayout_ok _ _ _ _ _ H Hm).
    unfold bind at 1.
    rewrite (SynchronizeLayout_ok _ _ _ r2 s2 (put_lookup _ _ _ _ H)) by exact Hm.
    rewrite put_put.
    rewrite (RunSynchronized_ok _ _ _ (put_lookup _ _ _ _ H)) by exact Hm.
    rewrite put_put. reflexivity. }
  split; [exact E1 |]. split; [exact E2 |].
  intros w' Hrun. rewrite E1, E2 in Hrun.
  destruct (drain_inv _ _ _ _ _ Hrun) as (_ & Hl & Hg).
  split; [exact Hl |].
  destruct (Hg g _ (put_lookup _ _ _ _ H)) as (x' & Hx' & Hq & _).
  exists x'. split; [exact Hx' |]. intros He.
  rewrite Hq, He. reflexivity.
Qed.

(** Two batches for the fresh group of thread 7: only the second is applied. *)
Lemma layout_last_writer_wins_witness :
  (SynchronizeLayout 0%nat [10%nat] (Some 1%nat) ;;
   SynchronizeLayout 0%nat [20%nat; 21%nat] (Some 2%nat) ;;
   RunSynchronized 0%nat) freshWorld = Ok tt laidOutWorld /\
  applied (trace laidOutWorld) = [([20%nat; 21%nat], Some 2%nat)].
Proof.
  assert (Hrun : (SynchronizeLayout 0%nat [10%nat] (Some 1%nat) ;;
                  SynchronizeLayout 0%nat [20%nat; 21%nat] (Some 2%nat) ;;
                  RunSynchronized 0%nat) freshWorld = Ok tt laidOutWorld)
    by (vm_compute; reflexivity).
  split; [exact Hrun |].
  exact (proj1 (proj2 (proj2
    (layout_last_writer_wins freshWorld 0%nat (freshGroup 7 ComplRemoveGroup)
       [10%nat] (Some 1%nat) [20%nat; 21%nat] (Some 2%nat) eq_refl eq_refl))
    laidOutWorld Hrun)).
Defined.

(** * More of the window groups *)

(** ** What a call leaves alone *)

Section Always.
Context {R : World -> World -> Prop}.
Hypothesis R_refl : forall w, R w w.
Hypothesis R_trans : forall w1 w2 w3, R w1 w2 -> R w2 w3 -> R w1 w3.

Lemma always_ret {A} (a : A) : always R (ret a).
Proof using R_refl. intros w w' [= <-]. apply R_refl. Qed.

Lemma always_panic {A} msg : always R (@panic A msg).
Proof using R_refl. intros w w' [= <-]. apply R_refl. Qed.

Lemma always_block {A} : always R (@block A).
Proof using R_refl. intros w w' [= <-]. apply R_refl. Qed.

Lemma always_gets {A} (f : World -> A) : always R (gets f).
Proof using R_refl. intros w w' [= <-]. apply R_refl. Qed.

Lemma always_load g : always R (load g).
Proof using R_refl.
  intros w w'. unfold load. destruct (heap w !! g); intros [= <-]; apply R_refl.
Qed.

Lemma always_modify f : (forall w, R w (f w)) -> always R (modify f).
Proof. intros Hf w w' [= <-]. apply Hf. Qed.

Lemma always_bind {A B} (m : M A) (k : A -> M B) :
  always R m -> (forall a, always R (k a)) -> always R (bind m k).
Proof using R_trans.
  intros Hm Hk w w'. unfold bind.
  destruct (m w) as [a w1 | msg w1 | w1 |] eqn:E.
  - intros Hw'. apply (R_trans _ w1).
    + apply Hm. now rewrite E.
    + exact (Hk a _ _ Hw').
  - intros [= <-]. apply Hm. now rewrite E.
  - intros [= <-]. apply Hm. now rewrite E.
  - discriminate.
Qed.

Lemma always_update g f :
  (forall w x, heap w !! g = Some x -> R w (put g (f x) w)) ->
  always R (update g f).
Proof using R_refl.
  intros Hf w w'. unfold update, bind, load.
  destruct (heap w !! g) as [x|] eqn:H; intros [= <-]; [now apply Hf | apply R_refl].
Qed.

Lemma always_if {A} (b : bool) (m1 m2 : M A) :
  always R m1 -> always R m2 -> always R (if b then m1 else m2).
Proof. now destruct b. Qed.
End Always.

Lemma sameOthers_refl g w : sameOthers g w w.
Proof. now split. Qed.

Lemma sameOthers_trans g w1 w2 w3 :
  sameOthers g w1 w2 -> sameOthers g w2 w3 -> sameOthers g w1 w3.
Proof.
  intros [L1 H1] [L2 H2]. split; [congruence |].
  intros g' Hne. now rewrite H2, H1.
Qed.

Lemma sameOthers_same_heap g w w' : heap w' = heap w -> sameOthers g w w'.
Proof. intros H. split; now rewrite H. Qed.

Lemma sameOthers_put g y w : sameOthers g w (put g y w).
Proof.
  split; [apply length_insert |].
  intros g' Hne. apply put_lookup_ne. congruence.
Qed.

Ltac others_step g :=
  lazymatch goal with
  | |- forall _, _ => intro
  | |- always _ (update _ _) =>
      apply (always_update (sameOthers_refl g)); intros; apply sameOthers_put
  | |- always _ (load _) => apply (always_load (sameOthers_refl g))
  | |- always _ (ret _) => apply (always_ret (sameOthers_refl g))
  | |- always _ (panic _) => apply (always_panic (sameOthers_refl g))
  | |- always _ block => apply (always_block (sameOthers_refl g))
  | |- always _ (gets _) => apply (always_gets (sameOthers_refl g))
  | |- always _ (modify _) =>
      apply always_modify; intros; apply sameOthers_same_heap; reflexivity
  | |- always _ (bind _ _) => apply (always_bind (sameOthers_trans g))
  | |- always _ (match ?x with _ => _ end) => destruct x
  end.

Lemma removeGroup_sameOthers g threadID : always (sameOthers g) (removeGroup threadID).
Proof.
  unfold removeGroup, mutex_Lock, mutex_Unlock, set_mutex, set_groups.
  repeat others_step g.
Qed.

Lemma dispose_with_sameOthers add g :
  (forall delta, always (sameOthers g) (add g delta)) ->
  always (sameOthers g) (dispose_with add g).
Proof.
  intros Hadd. unfold dispose_with, ToolTip_Dispose, run_completion, emit.
  repeat first [ apply Hadd | apply removeGroup_sameOthers | others_step g ].
Qed.

Lemma Add_sameOthers fuel g delta : always (sameOthers g) (Add fuel g delta).
Proof.
  revert delta. induction fuel as [|n IH]; intros delta.
  - intros w w'. discriminate.
  - cbn [Add].
    repeat first [ apply dispose_with_sameOthers; exact IH | others_step g ].
Qed.

Lemma ignore_sameOthers fuel g delta : always (sameOthers g) (ignore fuel g delta).
Proof.
  unfold ignore, dispose.
  repeat first
    [ apply dispose_with_sameOthers; intros; apply Add_sameOthers | others_step g ].
Qed.

(** X1.  Whatever [Add], [Done], [ignore] and [CreateToolTip] do to group
    [g], and however they end (return, panic, blocked on the manager's
    lock), they allocate no group and leave the record of every other group
    exactly as it was. *)
Theorem refcount_leaves_other_groups fuel g delta :
  always (sameOthers g) (Add fuel g delta) /\
  always (sameOthers g) (Done fuel g) /\
  always (sameOthers g) (ignore fuel g delta) /\
  always (sameOthers g) (CreateToolTip fuel g).
Proof.
  split; [apply Add_sameOthers |]. split; [apply Add_sameOthers |].
  split; [apply ignore_sameOthers |].
  unfold CreateToolTip, NewToolTip, emit.
  repeat first
    [ apply Add_sameOthers | apply ignore_sameOthers | others_step g ].
Qed.

(** ** What the queue leaves alone *)







(** One step through a method, for a relation with the given proofs of
    reflexivity and transitivity; [upd] and [chg] settle a write through a
    group pointer and a change of the world. *)
Ltac always_step refl trans upd chg :=
  lazymatch goal with
  | |- forall _, _ => intro
  | |- always _ (update _ _) => apply (always_update refl); intros; upd
  | |- always _ (load _) => apply (always_load refl)
  | |- always _ (ret _) => apply (always_ret refl)
  | |- always _ (panic _) => apply (always_panic refl)
  | |- always _ block => apply (always_block refl)
  | |- always _ (gets _) => apply (always_gets refl)
  | |- always _ (modify _) => apply always_modify; intros; chg
  | |- always _ (bind _ _) => apply (always_bind trans)
  | |- always _ (match ?x with _ => _ end) => destruct x
  end.











(** * More of the thread-lock helpers *)

Ltac thread_simpl Ht Hm := repeat (progress (cbn; rewrite ?Ht, ?Hm)).

(** X3.  In multi-thread mode, with the message-loop lock free:
    [EnterThread] pins the thread once more and takes the lock, and
    [LeaveThread] right after it gives both back, so that the pair changes
    nothing. *)
Theorem enter_leave_threaded w :
  Threaded w = true -> MsgLoopMutex w = false ->
  EnterThread w
  = Ok tt (set_MsgLoopMutex true (set_osThreadPins (S (osThreadPins w)) w)) /\
  (EnterThread ;; LeaveThread) w = Ok tt w.
Proof.
  intros Ht Hm.
  assert (E : EnterThread w
              = Ok tt (set_MsgLoopMutex true (set_osThreadPins (S (osThreadPins w)) w))).
  { unfold EnterThread, LockThread, MsgLoopMutex_Lock, runtime_LockOSThread,
      bind, gets, modify.
    thread_simpl Ht Hm. reflexivity. }
  split; [exact E |].
  unfold bind at 1. rewrite E.
  unfold LeaveThread, UnlockThread, MsgLoopMutex_Unlock, runtime_UnlockOSThread,
    bind, gets, modify.
  thread_simpl Ht Hm.
  destruct w. cbn in *. subst. reflexivity.
Qed.

Lemma enter_leave_threaded_witness :
  (EnterThread ;; LeaveThread)
    (mkWorld [] (mkManager RWFree None) true false 0 [] 0%nat [])
  = Ok tt (mkWorld [] (mkManager RWFree None) true false 0 [] 0%nat []).
Proof.
  exact (proj2 (enter_leave_threaded
                  (mkWorld [] (mkManager RWFree None) true false 0 [] 0%nat [])
                  eq_refl eq_refl)).
Defined.

(** X4.  The message-loop lock is not re-entrant.  In multi-thread mode,
    while the lock is held, [LockThread] does not return, and neither does
    [EnterThread], which has pinned the thread by then; so a second
    [EnterThread] without a [LeaveThread] in between never returns. *)
Theorem lock_not_reentrant w :
  Threaded w = true ->
  (MsgLoopMutex w = true ->
   LockThread w = Blocked w /\
   EnterThread w = Blocked (set_osThreadPins (S (osThreadPins w)) w)) /\
  (MsgLoopMutex w = false ->
   (EnterThread ;; EnterThread) w
   = Blocked (set_MsgLoopMutex true (set_osThreadPins (S (S (osThreadPins w))) w))).
Proof.
  intros Ht. split.
  - intros Hm.
    unfold EnterThread, LockThread, MsgLoopMutex_Lock, runtime_LockOSThread,
      bind, gets, modify.
    thread_simpl Ht Hm. split; reflexivity.
  - intros Hm.
    unfold EnterThread, LockThread, MsgLoopMutex_Lock, runtime_LockOSThread,
      bind, gets, modify.
    thread_simpl Ht Hm. reflexivity.
Qed.

Lemma lock_not_reentrant_witness :
  (EnterThread ;; EnterThread)
    (mkWorld [] (mkManager RWFree None) true false 0 [] 0%nat [])
  = Blocked (mkWorld [] (mkManager RWFree None) true true 2 [] 0%nat []).
Proof.
  exact (proj2 (lock_not_reentrant
                  (mkWorld [] (mkManager RWFree None) true false 0 [] 0%nat [])
                  eq_refl) eq_refl).
Defined.

(** X5.  In multi-thread mode, giving back a lock that is not held is
    fatal: [UnlockThread] stops with the runtime's "unlock of unlocked
    mutex", [LeaveThread] stops there too, before it unpins the thread, and
    [RunUnlocked(f)] stops before it calls [f]. *)
Theorem unlock_unheld_is_fatal w f :
  Threaded w = true -> MsgLoopMutex w = false ->
  UnlockThread w = Panic "fatal error: sync: unlock of unlocked mutex" w /\
  LeaveThread w = Panic "fatal error: sync: unlock of unlocked mutex" w /\
  RunUnlocked f w = Panic "fatal error: sync: unlock of unlocked mutex" w.
Proof.
  intros Ht Hm.
  unfold RunUnlocked, LeaveThread, UnlockThread, MsgLoopMutex_Unlock, bind, gets, panic.
  thread_simpl Ht Hm. repeat split.
Qed.

Lemma unlock_unheld_is_fatal_witness :
  LeaveThread (mkWorld [] (mkManager RWFree None) true false 1 [] 0%nat [])
  = Panic "fatal error: sync: unlock of unlocked mutex"
      (mkWorld [] (mkManager RWFree None) true false 1 [] 0%nat []).
Proof.
  exact (proj1 (proj2 (unlock_unheld_is_fatal
                  (mkWorld [] (mkManager RWFree None) true false 1 [] 0%nat [])
                  (CbMark 0) eq_refl eq_refl))).
Defined.



(** * More of the manager *)

Lemma Group_outcome threadID w :
  Group threadID w =
    match mutex (wgm w) with
    | RWWrite => Blocked w
    | _ => Ok (groups (wgm w) ≫= (fun m : gmap N loc => m !! threadID)) w
    end.
Proof.
  unfold Group, mutex_RLock, mutex_RUnlock, set_mutex, bind, gets, modify, ret.
  destruct w as [h [mu gs] ? ? ? ? ? ?]. cbn.
  destruct mu; destruct gs; reflexivity.
Qed.

Lemma CreateGroup_existing fuel threadID w g :
  mutex (wgm w) = RWFree ->
  groups (wgm w) ≫= (fun m : gmap N loc => m !! threadID) = Some g ->
  CreateGroup fuel threadID w = (Add fuel g 1 ;; ret g) w.
Proof.
  intros Hm Hg.
  unfold CreateGroup. unfold bind at 1. unfold mutex_RLock at 1.
  unfold bind at 1. unfold gets at 1. rewrite Hm. unfold set_mutex, modify at 1.
  unfold bind at 1. unfold gets at 1. cbn [groups wgm set_wgm].
  rewrite Hg.
  unfold bind at 1. unfold mutex_RUnlock, bind at 1. unfold gets at 1.
  cbn [mutex wgm set_wgm]. unfold set_mutex, modify at 1.
  replace (set_wgm _ (set_wgm _ w)) with w; [reflexivity |].
  destruct w as [h [mu gs] ? ? ? ? ? ?]. cbn in *. now subst mu.
Qed.

Lemma CreateGroup_new n threadID w :
  mutex (wgm w) = RWFree ->
  groups (wgm w) ≫= (fun m : gmap N loc => m !! threadID) = None ->
  CreateGroup (S n) threadID w
  = Ok (length (heap w))
      (set_wgm (mkManager RWFree
                  (Some (<[threadID := length (heap w)]> (default ∅ (groups (wgm w))))))
         (set_heap (heap w ++ [set_refs 1 (freshGroup threadID ComplRemoveGroup)]) w)).
Proof.
  intros Hm Hg.
  set (fresh := freshGroup threadID ComplRemoveGroup).
  set (g := length (heap w)).
  assert (HA : forall w0, heap w0 = heap w ++ [fresh] ->
            Add (S n) g 1 w0 = Ok tt (put g (set_refs 1 fresh) w0)).
  { intros w0 Hw0.
    rewrite (Add_step n w0 g fresh 1) by (rewrite Hw0; apply lookup_fresh_loc).
    reflexivity. }
  assert (Hins : <[g := set_refs 1 fresh]> (heap w ++ [fresh])
                 = heap w ++ [set_refs 1 fresh]).
  { unfold g. rewrite insert_app_r_alt by lia. now rewrite Nat.sub_diag. }
  unfold CreateGroup. unfold bind at 1. unfold mutex_RLock at 1.
  unfold bind at 1. unfold gets at 1. rewrite Hm. unfold set_mutex, modify at 1.
  unfold bind at 1. unfold gets at 1. cbn [groups wgm set_wgm].
  rewrite Hg.
  unfold bind at 1. unfold mutex_RUnlock, bind at 1. unfold gets at 1.
  cbn [mutex wgm set_wgm]. unfold set_mutex, modify at 1.
  unfold bind at 1. unfold mutex_Lock, bind at 1. unfold gets at 1.
  cbn [mutex wgm set_wgm]. unfold set_mutex, modify at 1.
  unfold bind at 1. unfold gets at 1. cbn [groups wgm set_wgm].
  destruct (groups (wgm w)) as [m|] eqn:Hgs.
  - cbn in Hg. rewrite Hg.
    unfold newWindowGroup, mutex_Unlock, set_groups, set_mutex, bind, gets,
      modify, ret.
    cbn [heap set_heap set_wgm wgm groups mutex].
    rewrite HA by reflexivity. unfold put.
    cbn [heap set_heap set_wgm wgm groups mutex]. fold fresh. rewrite Hins.
    reflexivity.
  - unfold newWindowGroup, mutex_Unlock, set_groups, set_mutex, bind, gets,
      modify, ret.
    cbn [heap set_heap set_wgm wgm groups mutex].
    rewrite HA by reflexivity. unfold put.
    cbn [heap set_heap set_wgm wgm groups mutex]. fold fresh. rewrite Hins.
    reflexivity.
Qed.

(** What [dispose] has done when it returns, whatever the tooltip's release
    did: the group is marked removed and has no tooltip. *)
Lemma dispose_with_Ok add g w w' :
  dispose_with add g w = Ok tt w' ->
  exists y, heap w' !! g = Some y /\ removed y = true /\ toolTip y = None.
Proof.
  unfold dispose_with. unfold bind at 1. unfold emit, modify at 1.
  unfold bind at 1. unfold load at 1. cbn [heap set_trace].
  destruct (heap w !! g) as [x|] eqn:H; [| discriminate].
  unfold bind at 1.
  assert (Htail : forall w1 y1, heap w1 !! g = Some y1 -> toolTip y1 = None ->
            (update g (set_removed true) ;;
             y <- load g ;; run_completion (completion y) (threadID y)) w1
            = Ok tt w' ->
            exists y, heap w' !! g = Some y /\ removed y = true /\ toolTip y = None).
  { intros w1 y1 H1 Ht1. rewrite (dispose_tail _ _ _ H1).
    destruct (mutex (wgm w1)); try discriminate. intros [= <-].
    exists (set_removed true y1). split; [exact (put_lookup _ _ _ _ H1) |].
    now split. }
  destruct (toolTip x) as [tip|] eqn:Ht.
  - unfold bind at 1.
    destruct (ToolTip_Dispose add g tip _) as [[] w1| | |]; try discriminate.
    unfold update at 1. unfold bind at 1. unfold load at 1.
    destruct (heap w1 !! g) as [x1|] eqn:H1; [| discriminate].
    unfold modify at 1. apply (Htail _ (set_toolTip None x1)); [| reflexivity].
    exact (put_lookup _ _ _ _ H1).
  - unfold ret at 1. apply (Htail _ x); assumption.
Qed.

(** X7.  [Group] is a pure lookup.  Unless a writer holds the manager's
    lock, it returns the group registered for the thread, or nil when the
    map is nil or has no entry for the thread, and leaves the world as it
    was, the lock included, also while other readers hold it.  While a
    writer holds the lock it does not return. *)
Theorem Group_is_a_lookup threadID w :
  (mutex (wgm w) <> RWWrite ->
   Group threadID w
   = Ok (match groups (wgm w) with
         | None => None
         | Some m => m !! threadID
         end) w) /\
  (mutex (wgm w) = RWWrite -> Group threadID w = Blocked w).
Proof.
  rewrite Group_outcome. split.
  - intros Hm. destruct (mutex (wgm w)); [| | congruence];
      destruct (groups (wgm w)); reflexivity.
  - intros ->. reflexivity.
Qed.

Lemma Group_is_a_lookup_witness :
  Group 7 windowWorld = Ok (Some 0%nat) windowWorld /\
  Group 8 windowWorld = Ok None windowWorld /\
  Group 7 emptyWorld = Ok None emptyWorld.
Proof.
  split; [| split].
  - refine (eq_trans (proj1 (Group_is_a_lookup 7 windowWorld) _) _);
      [discriminate | vm_compute; reflexivity].
  - refine (eq_trans (proj1 (Group_is_a_lookup 8 windowWorld) _) _);
      [discriminate | vm_compute; reflexivity].
  - refine (eq_trans (proj1 (Group_is_a_lookup 7 emptyWorld) _) _);
      [discriminate | vm_compute; reflexivity].
Defined.

(** X8.  A group that [CreateGroup] returns and that is not marked removed
    is the one [Group] finds for the thread afterwards; the manager's lock
    is free again. *)
Theorem Group_after_CreateGroup n threadID w g w' :
  mutex (wgm w) = RWFree ->
  CreateGroup (S n) threadID w = Ok g w' ->
  (exists y, heap w' !! g = Some y /\ removed y = false) ->
  Group threadID w' = Ok (Some g) w' /\ mutex (wgm w') = RWFree.
Proof.
  intros Hm Hrun (y & Hy & Hrem).
  assert (Hgoal : groups (wgm w') ≫= (fun m : gmap N loc => m !! threadID) = Some g
                  /\ mutex (wgm w') = RWFree).
  { destruct (groups (wgm w) ≫= (fun m : gmap N loc => m !! threadID))
      as [g0|] eqn:Hg.
    - rewrite (CreateGroup_existing _ _ _ _ Hm Hg) in Hrun.
      unfold bind in Hrun.
      destruct (Add (S n) g0 1 w) as [[] w1| | |] eqn:HA; try discriminate.
      injection Hrun as <- <-.
      destruct (heap w !! g0) as [x|] eqn:Hx.
      + rewrite (Add_step _ _ _ _ _ Hx) in HA.
        destruct (removed x); [discriminate |]. cbv zeta in HA.
        destruct (GoInt.add (refs x) 1 <? 0); [discriminate |].
        destruct (GoInt.sub (GoInt.add (refs x) 1) (ignored x) =? 0).
        * destruct (dispose_with_Ok _ _ _ _ HA) as (y' & Hy' & Hrem' & _).
          congruence.
        * injection HA as <-. split; [exact Hg | exact Hm].
      + cbn [Add] in HA. unfold bind, load in HA. rewrite Hx in HA. discriminate.
    - rewrite (CreateGroup_new _ _ _ Hm Hg) in Hrun. injection Hrun as <- <-.
      split; [| reflexivity]. cbn. apply lookup_insert_eq. }
  destruct Hgoal as [Hg' Hm']. split; [| exact Hm'].
  rewrite Group_outcome, Hm', Hg'. reflexivity.
Qed.

Lemma Group_after_CreateGroup_witness :
  Group 9 (set_wgm (mkManager RWFree (Some {[ 9%N := 0%nat ]}))
             (set_heap [set_refs 1 (freshGroup 9 ComplRemoveGroup)] emptyWorld))
  = Ok (Some 0%nat)
      (set_wgm (mkManager RWFree (Some {[ 9%N := 0%nat ]}))
         (set_heap [set_refs 1 (freshGroup 9 ComplRemoveGroup)] emptyWorld)).
Proof.
  refine (proj1 (Group_after_CreateGroup 0 9 emptyWorld 0%nat _ eq_refl _ _)).
  - vm_compute. reflexivity.
  - eexists. split; [reflexivity | reflexivity].
Defined.

(** X9.  [removeGroup], the manager's lock being free, takes the thread's
    entry out of the map and nothing else: afterwards [Group] finds no group
    for that thread and finds for every other thread what it found before;
    no group record changes and the lock is free again.  On a nil map, and
    when the thread has no entry, nothing changes at all, so removing twice
    is the same as removing once. *)
Theorem removeGroup_removes_one threadID w :
  mutex (wgm w) = RWFree ->
  let w' := unregister threadID w in
  removeGroup threadID w = Ok tt w' /\
  heap w' = heap w /\ mutex (wgm w') = RWFree /\
  Group threadID w' = Ok None w' /\
  (forall other, other <> threadID ->
     Group other w'
     = Ok (groups (wgm w) ≫= (fun m : gmap N loc => m !! other)) w') /\
  (groups (wgm w) ≫= (fun m : gmap N loc => m !! threadID) = None -> w' = w) /\
  removeGroup threadID w' = Ok tt w'.
Proof.
  intros Hm. cbv zeta.
  assert (Hm' : mutex (wgm (unregister threadID w)) = RWFree) by exact Hm.
  split; [exact (removeGroup_ok _ _ Hm) |]. split; [reflexivity |].
  split; [exact Hm' |].
  split; [| split; [| split]].
  - rewrite Group_outcome, Hm'. cbn.
    destruct (groups (wgm w)) as [m|]; cbn; [| reflexivity].
    now rewrite lookup_delete_eq.
  - intros other Hne. rewrite Group_outcome, Hm'. cbn.
    destruct (groups (wgm w)) as [m|]; cbn; [| reflexivity].
    now rewrite lookup_delete_ne by congruence.
  - intros Hnone. unfold unregister.
    destruct w as [h [mu gs] ? ? ? ? ? ?]. cbn in *.
    destruct gs as [m|]; cbn in *; [| reflexivity].
    now rewrite (delete_id _ _ Hnone).
  - rewrite (removeGroup_ok _ _ Hm'). unfold unregister. cbn.
    destruct (groups (wgm w)) as [m|]; cbn; [| reflexivity].
    now rewrite delete_delete_eq.
Qed.

Lemma removeGroup_removes_one_witness :
  Group 7 (unregister 7 windowWorld) = Ok None (unregister 7 windowWorld).
Proof.
  exact (proj1 (proj2 (proj2 (proj2
    (removeGroup_removes_one 7 windowWorld eq_refl))))).
Defined.

Lemma dispose_outcome_returns g x w :
  mutex (wgm w) = RWFree -> (toolTip x <> None -> refs x <> 0) ->
  dispose_outcome g x w
  = Ok tt (disposed g (match toolTip x with Some _ => released x | None => x end)
             (match toolTip x with
              | Some tip => log (EvToolTipDispose tip) (log (EvDispose g) w)
              | None => log (EvDispose g) w
              end)).
Proof.
  intros Hm Hnz. unfold dispose_outcome. rewrite Hm.
  destruct (toolTip x) as [tip|]; [| reflexivity].
  destruct (refs x =? 0) eqn:E; [| reflexivity].
  apply Z.eqb_eq in E. exfalso. now apply Hnz.
Qed.

(** X10.  The last reference.  On a registered group that is not removed
    and has exactly one reference that counts ([refs = ignored + 1], and
    [ignored] at least one if the group holds its tooltip), [Done] disposes
    of the group: the tooltip, if any, is disposed of once and gives back its
    reference, the group is marked removed and has no tooltip, and its thread
    is taken out of the manager's map, so that [Group] finds nothing.  A
    [CreateGroup] for the thread then makes a new group, at a new location,
    with one reference, and registers it; the old group stays removed. *)
Theorem last_Done_unregisters n m w g x :
  heap w !! g = Some x -> countersInRange x -> removed x = false ->
  0 <= ignored x -> refs x = ignored x + 1 ->
  (toolTip x <> None -> 1 <= ignored x) ->
  mutex (wgm w) = RWFree ->
  exists w1 y,
    Done (S (S n)) g w = Ok tt w1 /\
    heap w1 !! g = Some y /\ removed y = true /\ toolTip y = None /\
    refs y = (match toolTip x with Some _ => ignored x - 1 | None => ignored x end) /\
    trace w1 = trace w ++ [EvDispose g]
                 ++ (match toolTip x with Some tip => [EvToolTipDispose tip] | None => [] end)
                 ++ [EvCompletion (threadID x)] /\
    Group (threadID x) w1 = Ok None w1 /\
    exists w2,
      CreateGroup (S m) (threadID x) w1 = Ok (length (heap w)) w2 /\
      length (heap w) <> g /\
      heap w2 !! length (heap w)
      = Some (set_refs 1 (freshGroup (threadID x) ComplRemoveGroup)) /\
      heap w2 !! g = Some y /\
      Group (threadID x) w2 = Ok (Some (length (heap w))) w2.
Proof.
  intros H Hc Hrem Hi0 Hlive Htip Hm. pose proof Hc as [Hr Hi].
  assert (Hpred : GoInt.add (refs x) (-1) = ignored x).
  { rewrite GoIntFacts.pred_nonneg by (assumption || lia). lia. }
  set (x' := set_refs (ignored x) x).
  set (y := set_removed true
              (match toolTip x with Some _ => released x' | None => x' end)).
  set (w0 := match toolTip x with
             | Some tip => log (EvToolTipDispose tip) (log (EvDispose g) (put g x' w))
             | None => log (EvDispose g) (put g x' w)
             end).
  assert (HD : Done (S (S n)) g w
               = Ok tt (disposed g (match toolTip x with
                                    | Some _ => released x' | None => x' end) w0)).
  { unfold Done. rewrite (Add_outcome _ _ _ _ _ H Hc), Hrem, Hpred. cbv zeta.
    destruct (ignored x <? 0) eqn:En; [apply Z.ltb_lt in En; lia |].
    rewrite Z.eqb_refl. fold x'.
    rewrite dispose_outcome_returns; [reflexivity | exact Hm |].
    cbn. intros Hn. specialize (Htip Hn). lia. }
  set (w1 := disposed g (match toolTip x with
                         | Some _ => released x' | None => x' end) w0) in *.
  assert (Hy : heap w1 !! g = Some y).
  { unfold w1, disposed. cbn [heap unregister log set_wgm set_trace].
    apply (put_lookup _ _ x').
    unfold w0. destruct (toolTip x); exact (put_lookup _ _ _ _ H). }
  assert (Hlen : length (heap w1) = length (heap w)).
  { destruct (Add_sameOthers (S (S n)) g (-1) w w1) as [Hl _]; [| exact Hl].
    unfold Done in HD. now rewrite HD. }
  assert (Hm1 : mutex (wgm w1) = RWFree).
  { unfold w1, w0. destruct (toolTip x); exact Hm. }
  assert (Hg1 : groups (wgm w1) ≫= (fun m : gmap N loc => m !! threadID x) = None).
  { unfold w1, w0.
    destruct (toolTip x); cbn; (destruct (groups (wgm w)) as [gs|]; cbn;
      [apply lookup_delete_eq | reflexivity]). }
  exists w1, y. split; [exact HD |]. split; [exact Hy |].
  split; [reflexivity |].
  split; [unfold y; destruct (toolTip x) eqn:E; cbn; [reflexivity | exact E] |].
  split; [unfold y; destruct (toolTip x); reflexivity |].
  split.
  { unfold w1, w0. destruct (toolTip x); cbn; rewrite <- ?app_assoc; reflexivity. }
  split; [rewrite Group_outcome, Hm1, Hg1; reflexivity |].
  assert (Hlt : (g < length (heap w1))%nat) by (eapply lookup_lt_Some; exact Hy).
  rewrite <- Hlen.
  eexists. split; [exact (CreateGroup_new m _ _ Hm1 Hg1) |].
  split; [lia |].
  split; [cbn [heap set_heap set_wgm]; apply lookup_fresh_loc |].
  split.
  - cbn [heap set_heap set_wgm]. rewrite lookup_app_l by lia. exact Hy.
  - rewrite Group_outcome. cbn. rewrite lookup_insert_eq. reflexivity.
Qed.

Lemma last_Done_unregisters_witness :
  exists w1 y,
    Done 2 0%nat windowToolTipWorld = Ok tt w1 /\
    heap w1 !! 0%nat = Some y /\ removed y = true.
Proof.
  assert (Hc : countersInRange
                 (set_toolTip (Some 0%nat)
                    (set_ignored 1 (set_refs 2 (freshGroup 7 ComplRemoveGroup)))))
    by (split; vm_compute; split; discriminate).
  assert (Hi : 0 <= 1) by discriminate.
  destruct (last_Done_unregisters 0 0 windowToolTipWorld 0%nat _
              eq_refl Hc eq_refl Hi eq_refl (fun _ => Z.le_refl 1) eq_refl)
    as (w1 & y & HD & Hy & Hr & _).
  exists w1, y. split; [exact HD |]. split; [exact Hy | exact Hr].
Defined.

Lemma CreateGroup_times_existing n threadID k :
  forall w g x,
    mutex (wgm w) = RWFree ->
    groups (wgm w) ≫= (fun m : gmap N loc => m !! threadID) = Some g ->
    heap w !! g = Some x -> removed x = false ->
    GoInt.inRange (ignored x) -> ignored x <= refs x -> 0 <= refs x ->
    refs x + Z.of_nat k <= GoInt.maxInt ->
    exists w',
      CreateGroup_times (S n) threadID k w = Ok (replicate k g) w' /\
      heap w' !! g = Some (set_refs (refs x + Z.of_nat k) x) /\
      wgm w' = wgm w.
Proof.
  induction k as [|k IH]; intros w g x Hm Hg H Hrem Hi Hle H0 Hmax.
  - exists w. split; [reflexivity |]. split; [| reflexivity].
    rewrite H. f_equal. destruct x. unfold set_refs. cbn. now rewrite Z.add_0_r.
  - assert (Hadd : GoInt.add (refs x) 1 = refs x + 1).
    { apply GoIntFacts.add_small.
      unfold GoInt.inRange, GoInt.minInt, GoInt.maxInt in *. lia. }
    assert (Hr1 : GoInt.inRange (refs x + 1))
      by (rewrite <- Hadd; apply GoIntFacts.add_range).
    set (x1 := set_refs (refs x + 1) x).
    assert (HA : Add (S n) g 1 w = Ok tt (put g x1 w)).
    { rewrite (Add_step _ _ _ _ _ H), Hrem, Hadd. cbv zeta.
      destruct (refs x + 1 <? 0) eqn:En; [apply Z.ltb_lt in En; lia |].
      destruct (GoInt.sub (refs x + 1) (ignored x) =? 0) eqn:E; [| reflexivity].
      apply Z.eqb_eq in E.
      pose proof (proj1 (GoIntFacts.sub_eq_0 _ _ Hr1 Hi) E). lia. }
    destruct (IH (put g x1 w) g x1) as (w' & Hrun & Hx' & Hw');
      try assumption.
    + exact (put_lookup _ _ _ _ H).
    + cbn. lia.
    + cbn. lia.
    + cbn. lia.
    + exists w'. split; [| split; [| exact Hw']].
      * cbn [CreateGroup_times]. unfold bind at 1.
        rewrite (CreateGroup_existing _ _ _ _ Hm Hg). unfold bind at 1.
        rewrite HA. unfold ret at 1. unfold bind at 1. rewrite Hrun. reflexivity.
      * rewrite Hx'. cbn. f_equal. unfold set_refs. cbn. f_equal. lia.
Qed.

(** X11.  [CreateGroup] called [k] times in a row for a thread that has no
    group yet returns the same group every time, the one the first call
    allocates, and leaves it with a reference count equal to the number of
    calls; the group is the one [Group] finds for the thread. *)
Theorem CreateGroup_times_counts n threadID k w :
  mutex (wgm w) = RWFree ->
  groups (wgm w) ≫= (fun m : gmap N loc => m !! threadID) = None ->
  (0 < k)%nat -> Z.of_nat k <= GoInt.maxInt ->
  exists w',
    CreateGroup_times (S n) threadID k w = Ok (replicate k (length (heap w))) w' /\
    heap w' !! length (heap w)
    = Some (set_refs (Z.of_nat k) (freshGroup threadID ComplRemoveGroup)) /\
    Refs (length (heap w)) w' = Ok (Z.of_nat k) w' /\
    Group threadID w' = Ok (Some (length (heap w))) w'.
Proof.
  intros Hm Hg Hk Hmax. destruct k as [|k]; [lia |].
  set (g := length (heap w)).
  set (w1 := set_wgm (mkManager RWFree
                        (Some (<[threadID := g]> (default ∅ (groups (wgm w))))))
               (set_heap (heap w ++ [set_refs 1 (freshGroup threadID ComplRemoveGroup)]) w)).
  assert (H1 : heap w1 !! g = Some (set_refs 1 (freshGroup threadID ComplRemoveGroup)))
    by apply lookup_fresh_loc.
  assert (Hg1 : groups (wgm w1) ≫= (fun m : gmap N loc => m !! threadID) = Some g)
    by (cbn; apply lookup_insert_eq).
  destruct (CreateGroup_times_existing n threadID k w1 g _ eq_refl Hg1 H1 eq_refl)
    as (w' & Hrun & Hx' & Hw').
  - vm_compute. split; discriminate.
  - cbn. lia.
  - cbn. lia.
  - cbn. lia.
  - exists w'.
    assert (Hx : heap w' !! g
                 = Some (set_refs (Z.of_nat (S k)) (freshGroup threadID ComplRemoveGroup))).
    { rewrite Hx'. cbn. f_equal. unfold set_refs. cbn. f_equal. lia. }
    split; [| split; [exact Hx | split]].
    + cbn [CreateGroup_times]. unfold bind at 1.
      rewrite (CreateGroup_new _ _ _ Hm Hg). fold g. fold w1.
      unfold bind at 1. rewrite Hrun. reflexivity.
    + unfold Refs, bind. rewrite (load_ok _ _ _ Hx). reflexivity.
    + rewrite Group_outcome, Hw'. cbn. rewrite lookup_insert_eq. reflexivity.
Qed.

Lemma CreateGroup_times_counts_witness :
  exists w',
    CreateGroup_times 1 7 3 emptyWorld = Ok [0; 0; 0]%nat w' /\
    Refs 0%nat w' = Ok 3 w'.
Proof.
  assert (H3 : Z.of_nat 3 <= GoInt.maxInt) by discriminate.
  destruct (CreateGroup_times_counts 0 7 3 emptyWorld eq_refl eq_refl
              (Nat.lt_0_succ 2) H3) as (w' & Hrun & _ & Hrefs & _).
  exists w'. split; [exact Hrun | exact Hrefs].
Defined.

(** X12.  [CreateGroup] can hand out a group it has just disposed of.  When
    the group registered for the thread is one reference short of its
    ignored count ([refs + 1 = ignored], the state an [Add] below [ignored]
    leaves), the [Add(1)] of [CreateGroup] makes the liveness zero: the
    call returns the registered group, but marked removed and taken out of
    the manager's map, and the [Done] its caller owes panics. *)
Theorem CreateGroup_may_dispose n tid w g x :
  mutex (wgm w) = RWFree ->
  groups (wgm w) ≫= (fun m : gmap N loc => m !! tid) = Some g ->
  heap w !! g = Some x -> countersInRange x -> removed x = false ->
  0 <= refs x -> refs x + 1 = ignored x ->
  exists w' y,
    CreateGroup (S (S n)) tid w = Ok g w' /\
    heap w' !! g = Some y /\ removed y = true /\
    groups (wgm w') ≫= (fun m : gmap N loc => m !! threadID x) = None /\
    Done (S n) g w' = Panic msgAddRemoved w'.
Proof.
  intros Hm Hg H Hc Hrem H0 Hlive. pose proof Hc as [Hr Hi].
  assert (Hadd : GoInt.add (refs x) 1 = ignored x).
  { rewrite GoIntFacts.add_small; [exact Hlive |]. now rewrite Hlive. }
  set (x' := set_refs (ignored x) x).
  set (z := match toolTip x with Some _ => released x' | None => x' end).
  set (w0 := match toolTip x with
             | Some tip => log (EvToolTipDispose tip) (log (EvDispose g) (put g x' w))
             | None => log (EvDispose g) (put g x' w)
             end).
  assert (HA : Add (S (S n)) g 1 w = Ok tt (disposed g z w0)).
  { rewrite (Add_outcome _ _ _ _ _ H Hc), Hrem, Hadd. cbv zeta.
    destruct (ignored x <? 0) eqn:En; [apply Z.ltb_lt in En; lia |].
    rewrite Z.eqb_refl. fold x'.
    rewrite dispose_outcome_returns; [reflexivity | exact Hm |].
    cbn. intros _. lia. }
  assert (Hy : heap (disposed g z w0) !! g = Some (set_removed true z)).
  { unfold disposed. cbn [heap unregister log set_wgm set_trace].
    apply (put_lookup _ _ x').
    unfold w0. destruct (toolTip x); exact (put_lookup _ _ _ _ H). }
  exists (disposed g z w0), (set_removed true z).
  split; [| split; [exact Hy | split; [reflexivity | split]]].
  - rewrite (CreateGroup_existing _ _ _ _ Hm Hg). unfold bind. rewrite HA. reflexivity.
  - unfold z, w0. destruct (toolTip x); cbn;
      (destruct (groups (wgm w)) as [gs|]; cbn; [apply lookup_delete_eq | reflexivity]).
  - unfold Done. rewrite (Add_step _ _ _ _ _ Hy). reflexivity.
Qed.

Lemma CreateGroup_may_dispose_witness :
  exists w' y,
    CreateGroup 2 7 shortGroupWorld = Ok 0%nat w' /\
    heap w' !! 0%nat = Some y /\ removed y = true.
Proof.
  assert (Hc : countersInRange
                 (set_toolTip (Some 0%nat)
                    (set_ignored 1 (freshGroup 7 ComplRemoveGroup))))
    by (split; vm_compute; split; discriminate).
  assert (Hg : groups (wgm shortGroupWorld) ≫= (fun m : gmap N loc => m !! 7%N)
               = Some 0%nat) by (vm_compute; reflexivity).
  destruct (CreateGroup_may_dispose 0 7 shortGroupWorld 0%nat _
              eq_refl Hg eq_refl Hc eq_refl (Z.le_refl 0) eq_refl)
    as (w' & y & Hrun & Hy & Hr & _).
  exists w', y. split; [exact Hrun |]. split; [exact Hy | exact Hr].
Defined.

(** X13.  When the tooltip constructor fails, [CreateToolTip] returns nil
    and the error; it has cached no tooltip and has not called [ignore]:
    the groups, the manager and the record of events are as they were, and
    [ToolTip()] still returns nil. *)
Theorem CreateToolTip_failure fuel w g x rest :
  heap w !! g = Some x -> toolTip x = None ->
  newToolTipErrs w = true :: rest ->
  let w1 := set_toolTips rest (nextToolTip w) w in
  CreateToolTip fuel g w = Ok (None, Some "NewToolTip failed"%string) w1 /\
  heap w1 = heap w /\ wgm w1 = wgm w /\ trace w1 = trace w /\
  ToolTip g w1 = Ok None w1.
Proof.
  intros H Ht He. cbv zeta.
  split; [| split; [reflexivity | split; [reflexivity | split; [reflexivity |]]]].
  - unfold CreateToolTip. unfold bind at 1. rewrite (load_ok _ _ _ H), Ht.
    unfold bind at 1. rewrite NewToolTip_outcome, He. reflexivity.
  - unfold ToolTip, bind. rewrite (load_ok _ g x) by exact H. now rewrite Ht.
Qed.

Lemma CreateToolTip_failure_witness :
  CreateToolTip 2 0%nat
    (set_toolTips [true] 0%nat windowWorld)
  = Ok (None, Some "NewToolTip failed"%string) windowWorld.
Proof.
  exact (proj1 (CreateToolTip_failure 2 (set_toolTips [true] 0%nat windowWorld) 0%nat
                  (set_refs 1 (freshGroup 7 ComplRemoveGroup)) [] eq_refl eq_refl eq_refl)).
Defined.

(** * More of the synchronized queue *)

Lemma traceGrows_refl w : traceGrows w w.
Proof. exists []. now rewrite app_nil_r. Qed.

Lemma traceGrows_trans w1 w2 w3 :
  traceGrows w1 w2 -> traceGrows w2 w3 -> traceGrows w1 w3.
Proof.
  intros [t1 H1] [t2 H2]. exists (t1 ++ t2). now rewrite H2, H1, app_assoc.
Qed.

Ltac trace_step :=
  always_step traceGrows_refl traceGrows_trans
    ltac:(exists []; cbn; now rewrite app_nil_r)
    ltac:(first [ eexists; reflexivity | exists []; cbn; now rewrite app_nil_r ]).

Lemma call_traceGrows f : always traceGrows (call f).
Proof.
  induction f; cbn [call];
    unfold Synchronize, SynchronizeLayout, syncMutex_Lock, syncMutex_Unlock, emit;
    repeat first [ assumption | trace_step ].
Qed.

Lemma run_funcs_traceGrows funcs : always traceGrows (run_funcs funcs).
Proof.
  induction funcs; cbn [run_funcs]; unfold emit;
    repeat first [ assumption | apply call_traceGrows | trace_step ].
Qed.


(** X14.  A drain with nothing pending does nothing: on a group with an
    empty queue and an empty layout batch [RunSynchronized] returns, calls
    no callback and applies no layout; all it does is forget a stopwatch
    that was submitted with an empty batch.  With no stopwatch pending the
    world is exactly as it was. *)
Theorem RunSynchronized_idle w g x :
  heap w !! g = Some x -> syncMutex x = false ->
  syncFuncs x = [] -> layoutResults x = [] ->
  RunSynchronized g w = Ok tt (put g (set_layout [] None x) w) /\
  (layoutStopwatch x = None -> RunSynchronized g w = Ok tt w).
Proof.
  intros H Hm Hq Hl.
  assert (E : RunSynchronized g w = Ok tt (put g (set_layout [] None x) w)).
  { rewrite (RunSynchronized_ok _ _ _ H Hm), Hq, Hl. cbn.
    unfold bind, ret. do 2 f_equal. destruct x. cbn in *. now subst. }
  split; [exact E |]. intros Hs. rewrite E. f_equal.
  replace (set_layout [] None x) with x; [exact (put_same _ _ _ H) |].
  destruct x. cbn in *. now subst.
Qed.

Lemma RunSynchronized_idle_witness :
  RunSynchronized 0%nat freshWorld = Ok tt freshWorld.
Proof.
  exact (proj2 (RunSynchronized_idle freshWorld 0%nat (freshGroup 7 ComplRemoveGroup)
                  eq_refl eq_refl eq_refl eq_refl) eq_refl).
Defined.

(** X15.  The layout comes first.  When a layout batch that is not empty is
    pending, the first thing a drain does after releasing the lock is to
    apply it, with its stopwatch; every callback is called after that, and
    no second layout is applied. *)
Theorem layout_before_callbacks w g x w' :
  heap w !! g = Some x -> syncMutex x = false ->
  layoutResults x <> [] ->
  RunSynchronized g w = Ok tt w' ->
  exists tr,
    trace w' = trace w ++ EvApplyLayout (layoutResults x) (layoutStopwatch x) :: tr /\
    invoked tr = syncFuncs x /\ applied tr = [].
Proof.
  intros H Hm Hl Hrun. rewrite (RunSynchronized_ok _ _ _ H Hm) in Hrun.
  destruct (layoutResults x) as [|r rs] eqn:El; [congruence |].
  cbn [length Nat.ltb Nat.leb] in Hrun.
  unfold bind at 1 in Hrun. unfold applyLayoutResults, emit, modify at 1 in Hrun.
  set (w0 := set_trace _ _) in Hrun.
  destruct (run_funcs_traceGrows (syncFuncs x) w0 w') as [tr Htr]; [now rewrite Hrun |].
  destruct (run_funcs_inv _ _ _ Hrun) as (Hi & Ha & _).
  exists tr. split; [| split].
  - rewrite Htr. unfold w0. cbn. now rewrite <- app_assoc.
  - rewrite Htr, invoked_app in Hi. now apply app_inv_head in Hi.
  - rewrite Htr, applied_app in Ha.
    rewrite <- (app_nil_r (applied (trace w0))) in Ha at 2.
    now apply app_inv_head in Ha.
Qed.



Lemma layout_before_callbacks_witness :
  exists tr,
    trace (set_trace [EvApplyLayout [20%nat] (Some 2%nat);
                      EvInvoke (CbMark 1); EvMark 1] freshWorld)
    = [] ++ EvApplyLayout [20%nat] (Some 2%nat) :: tr /\
    invoked tr = [CbMark 1] /\ applied tr = [].
Proof.
  refine (layout_before_callbacks
            (set_heap [set_layout [20%nat] (Some 2%nat)
                         (set_syncFuncs [CbMark 1] (freshGroup 7 ComplRemoveGroup))]
               emptyWorld)
            0%nat _ _ eq_refl eq_refl _ _).
  - discriminate.
  - vm_compute. reflexivity.
Defined.

(** * The image lists *)

Module ImageListFacts.
Import ImageList.

Lemma wrap32_idem z : wrap32 (wrap32 z) = wrap32 z.
Proof.
  unfold wrap32.
  change (2 ^ 31) with 2147483648. change (2 ^ 32) with 4294967296.
  replace ((z + 2147483648) mod 4294967296 - 2147483648 + 2147483648)
    with ((z + 2147483648) mod 4294967296) by lia.
  now rewrite Z.mod_mod by lia.
Qed.

Lemma win_index_wrapped c w : wrap32 (fst (win_index c w)) = fst (win_index c w).
Proof. apply wrap32_idem. Qed.

(** X17.  [Add] caches.  Once [Add] has returned an index for a bitmap and
    a mask, every later [Add] of the same pair returns the same index and no
    error, without calling the native list and without changing the image
    list. *)
Theorem Add_cached il bitmap maskBitmap w index il' w' :
  Add il bitmap maskBitmap w = Returns ((index, None), il') w' ->
  forall w2, Add il' bitmap maskBitmap w2 = Returns ((index, None), il') w2.
Proof.
  unfold Add. destruct bitmap as [b|]; [| discriminate].
  destruct (bitmapMaskedBitmap2Index il ≫= _) as [i|] eqn:Hhit.
  - intros [= <- <- <-] w2. now rewrite Hhit.
  - cbv zeta. destruct (win_index _ w) as [i w1].
    destruct (i =? -1); [discriminate |].
    destruct (bitmapMaskedBitmap2Index il) as [m|]; [| discriminate].
    intros [= <- <- <-] w2. cbn. now rewrite lookup_insert_eq.
Qed.

Lemma Add_cached_witness :
  Add (mkImageList 9 0 (mkSize 16 16) (Some ∅)
         (Some {[ (1%positive, Some 2%positive) := 0 ]}))
    (Some bitmapA) (Some bitmapB) sampleWin
  = Returns ((0, None),
             mkImageList 9 0 (mkSize 16 16) (Some ∅)
               (Some {[ (1%positive, Some 2%positive) := 0 ]})) sampleWin.
Proof.
  apply (Add_cached (newList 9 (mkSize 16 16) 0) (Some bitmapA) (Some bitmapB)
           sampleWin 0 _ (mkWin [1; 2] (fileInfo sampleWin) (Resources_Image sampleWin)
                            [CallImageList_Add 9 100 200])).
  vm_compute. reflexivity.
Defined.

(** X18.  The errors of [Add].  [Add] returns an error in two cases only,
    and in both the index is 0 and the image list is unchanged: the bitmap
    is nil, and then the native list is not called; or the pair is not
    cached and the one native call made returned -1.  A failure is not
    cached. *)
Theorem Add_errors il bitmap maskBitmap w index err il' w' :
  Add il bitmap maskBitmap w = Returns ((index, Some err), il') w' ->
  index = 0 /\ il' = il /\
  ((bitmap = None /\ w' = w) \/
   (exists b,
      bitmap = Some b /\
      bitmapMaskedBitmap2Index il
        ≫= (fun m => m !! (bitmapAddr b, bitmapAddr <$> maskBitmap)) = None /\
      wrap32 (hd (-1) (returns w)) = -1 /\
      calls w' = calls w ++ [CallImageList_Add (hIml il) (handle b)
                               (match maskBitmap with
                                | Some mb => handle mb
                                | None => 0
                                end)])).
Proof.
  unfold Add. destruct bitmap as [b|].
  - destruct (bitmapMaskedBitmap2Index il ≫= _) as [i|] eqn:Hhit; [discriminate |].
    cbv zeta. unfold win_index.
    destruct (wrap32 (hd (-1) (returns w)) =? -1) eqn:E.
    + intros [= <- <- <- <-]. apply Z.eqb_eq in E.
      split; [reflexivity |]. split; [reflexivity |]. right.
      exists b. now repeat split.
    + destruct (bitmapMaskedBitmap2Index il); discriminate.
  - intros [= <- <- <- <-]. split; [reflexivity |]. split; [reflexivity |]. now left.
Qed.

Lemma Add_errors_witness :
  (0 = 0 /\
   newList 9 (mkSize 16 16) 0 = newList 9 (mkSize 16 16) 0 /\
   ((@None Bitmap = None /\ sampleWin = sampleWin) \/
    (exists b,
       None = Some b /\
       bitmapMaskedBitmap2Index (newList 9 (mkSize 16 16) 0)
         ≫= (fun m => m !! (bitmapAddr b, bitmapAddr <$> Some bitmapB)) = None /\
       wrap32 (hd (-1) (returns sampleWin)) = -1 /\
       calls sampleWin
       = calls sampleWin ++ [CallImageList_Add (hIml (newList 9 (mkSize 16 16) 0))
                               (handle b) (handle bitmapB)]))).
Proof.
  exact (Add_errors (newList 9 (mkSize 16 16) 0) None (Some bitmapB) sampleWin
           0 "bitmap cannot be nil" _ _ eq_refl).
Defined.

(** X19.  The caches only grow, and each method keeps to its own.  [Add]
    and [AddMasked], when they return, leave the handle and the mask colour
    as they were and never change or drop an index that was cached; [Add]
    leaves the cache of [AddMasked] alone, and [AddMasked] the cache of
    [Add]. *)
Theorem caches_only_grow il bitmap maskBitmap w r il' w' :
  (Add il bitmap maskBitmap w = Returns (r, il') w' ->
   hIml il' = hIml il /\ maskColor il' = maskColor il /\
   colorMaskedBitmap2Index il' = colorMaskedBitmap2Index il /\
   forall key i,
     bitmapMaskedBitmap2Index il ≫= (fun m => m !! key) = Some i ->
     bitmapMaskedBitmap2Index il' ≫= (fun m => m !! key) = Some i) /\
  (AddMasked il bitmap w = Returns (r, il') w' ->
   hIml il' = hIml il /\ maskColor il' = maskColor il /\
   bitmapMaskedBitmap2Index il' = bitmapMaskedBitmap2Index il /\
   forall key i,
     colorMaskedBitmap2Index il ≫= (fun m => m !! key) = Some i ->
     colorMaskedBitmap2Index il' ≫= (fun m => m !! key) = Some i).
Proof.
  split.
  - unfold Add. destruct bitmap as [b|]; [| intros [= <- <- <-]; now repeat split].
    destruct (bitmapMaskedBitmap2Index il ≫= _) as [i0|] eqn:Hhit;
      [intros [= <- <- <-]; now repeat split |].
    cbv zeta. destruct (win_index _ w) as [i1 w1].
    destruct (i1 =? -1); [intros [= <- <- <-]; now repeat split |].
    destruct (bitmapMaskedBitmap2Index il) as [m|] eqn:Hm; [| discriminate].
    intros [= <- <- <-]. cbn. repeat split.
    intros key i Hk. cbn in Hhit.
    destruct (decide (key = (bitmapAddr b, bitmapAddr <$> maskBitmap))) as [-> | Hne].
    + congruence.
    + now rewrite lookup_insert_ne by congruence.
  - unfold AddMasked. destruct bitmap as [b|]; [| intros [= <- <- <-]; now repeat split].
    destruct (colorMaskedBitmap2Index il ≫= _) as [i0|] eqn:Hhit;
      [intros [= <- <- <-]; now repeat split |].
    cbv zeta. destruct (win_index _ w) as [i1 w1].
    destruct (i1 =? -1); [intros [= <- <- <-]; now repeat split |].
    destruct (colorMaskedBitmap2Index il) as [m|] eqn:Hm; [| discriminate].
    intros [= <- <- <-]. cbn. repeat split.
    intros key i Hk. cbn in Hhit.
    destruct (decide (key = bitmapAddr b)) as [-> | Hne].
    + congruence.
    + now rewrite lookup_insert_ne by congruence.
Qed.

Lemma caches_only_grow_witness :
  colorMaskedBitmap2Index
    (mkImageList 9 0 (mkSize 16 16) (Some ∅)
       (Some {[ (1%positive, Some 2%positive) := 0 ]}))
  = colorMaskedBitmap2Index (newList 9 (mkSize 16 16) 0).
Proof.
  refine (proj1 (proj2 (proj2 (proj1
    (caches_only_grow (newList 9 (mkSize 16 16) 0) (Some bitmapA) (Some bitmapB)
       sampleWin (0, None) _
       (mkWin [1; 2] (fileInfo sampleWin) (Resources_Image sampleWin)
          [CallImageList_Add 9 100 200])) _)))).
  vm_compute. reflexivity.
Defined.

(** X20.  [AddMasked] caches.  Once [AddMasked] has returned an index for a
    bitmap, every later [AddMasked] of that bitmap returns the same index
    and no error, without calling the native list and without changing the
    image list: the index survives being stored as an [int] and read back as
    an [int32]. *)
Theorem AddMasked_cached il bitmap w index il' w' :
  AddMasked il bitmap w = Returns ((index, None), il') w' ->
  forall w2, AddMasked il' bitmap w2 = Returns ((index, None), il') w2.
Proof.
  unfold AddMasked. destruct bitmap as [b|]; [| discriminate].
  destruct (colorMaskedBitmap2Index il ≫= _) as [i|] eqn:Hhit.
  - intros [= <- <- <-] w2. now rewrite Hhit.
  - cbv zeta. pose proof (win_index_wrapped
      (CallImageList_AddMasked (hIml il) (handle b) (maskColor il)) w) as Hwr.
    destruct (win_index _ w) as [i w1]. cbn in Hwr.
    destruct (i =? -1); [discriminate |].
    destruct (colorMaskedBitmap2Index il) as [m|]; [| discriminate].
    intros [= <- <- <-] w2. cbn. rewrite lookup_insert_eq, Hwr. reflexivity.
Qed.

Lemma AddMasked_cached_witness :
  AddMasked (mkImageList 9 0 (mkSize 16 16) (Some {[ 1%positive := 0 ]}) (Some ∅))
    (Some bitmapA) sampleWin
  = Returns ((0, None),
             mkImageList 9 0 (mkSize 16 16) (Some {[ 1%positive := 0 ]}) (Some ∅))
      sampleWin.
Proof.
  apply (AddMasked_cached (newList 9 (mkSize 16 16) 0) (Some bitmapA)
           sampleWin 0 _ (mkWin [1; 2] (fileInfo sampleWin) (Resources_Image sampleWin)
                            [CallImageList_AddMasked 9 100 0])).
  vm_compute. reflexivity.
Defined.

(** X21.  [Dispose] destroys the native list once.  If the handle is not
    zero, it calls [ImageList_Destroy] with it, once, and sets the handle to
    zero; if the handle is zero it does nothing, so a second [Dispose] does
    nothing.  The caches are not cleared: an [Add] of a pair that was added
    before the disposal still returns the old index, without a native
    call. *)
Theorem Dispose_once il w :
  let (il1, w1) := Dispose il w in
  hIml il1 = 0 /\
  calls w1 = calls w ++ (if hIml il =? 0 then [] else [CallImageList_Destroy (hIml il)]) /\
  colorMaskedBitmap2Index il1 = colorMaskedBitmap2Index il /\
  bitmapMaskedBitmap2Index il1 = bitmapMaskedBitmap2Index il /\
  (forall w2, Dispose il1 w2 = (il1, w2)) /\
  (forall b mask i w2,
     bitmapMaskedBitmap2Index il
       ≫= (fun m => m !! (bitmapAddr b, bitmapAddr <$> mask)) = Some i ->
     Add il1 (Some b) mask w2 = Returns ((i, None), il1) w2).
Proof.
  unfold Dispose. destruct (hIml il =? 0) eqn:E.
  - apply Z.eqb_eq in E. split; [exact E |]. split; [now rewrite app_nil_r |].
    split; [reflexivity |]. split; [reflexivity |]. split.
    + intros w2. now rewrite (proj2 (Z.eqb_eq _ _) E).
    + intros b mask i w2 Hk. unfold Add. now rewrite Hk.
  - split; [reflexivity |]. split; [reflexivity |].
    split; [reflexivity |]. split; [reflexivity |]. split.
    + intros w2. reflexivity.
    + intros b mask i w2 Hk. unfold Add. cbn. cbn in Hk. now rewrite Hk.
Qed.

(** The image the index is looked up for: a name is resolved first. *)
Lemma imageIndexAddIfNotExists_outcome image hIml m dpi w :
  let resolved :=
    match image with
    | ImageString name => fst (Resources_Image w name)
    | _ => image
    end in
  imageIndexAddIfNotExists image hIml m dpi w =
    if (pointerOf resolved =? 0)%N then Returns (-1, m) w
    else
      match m ≫= (fun mp => mp !! pointerOf resolved) with
      | Some i => Returns (i, m) w
      | None =>
          let (i, w') :=
            match resolved with
            | ImageBitmap (Some b) =>
                win_index (CallImageList_AddMasked hIml (hBmp b) 0) w
            | ImageIcon (Some ic) =>
                win_index (CallImageList_ReplaceIcon hIml (-1) (handleForDPI ic dpi)) w
            | _ => (-1, w)
            end in
          if -1 <? i
          then match m with
               | Some mp => Returns (i, Some (<[pointerOf resolved := i]> mp)) w'
               | None => Panics "assignment to entry in nil map" w'
               end
          else Returns (i, m) w'
      end.
Proof. destruct image; reflexivity. Qed.

(** X22.  Images that have no address get no index.  For the nil
    interface, a nil [*Bitmap] or [*Icon], a value of another type, and a
    name that the resources do not resolve to a bitmap or an icon,
    [imageIndexAddIfNotExists] returns -1, calls nothing and leaves the cache
    as it was, also when the cache is the nil map. *)
Theorem no_address_no_index image hIml m dpi w :
  pointerOf (match image with
             | ImageString name => fst (Resources_Image w name)
             | _ => image
             end) = 0%N ->
  imageIndexAddIfNotExists image hIml m dpi w = Returns (-1, m) w.
Proof.
  intros Hp. rewrite imageIndexAddIfNotExists_outcome. cbv zeta. now rewrite Hp.
Qed.

Lemma no_address_no_index_witness :
  imageIndexAddIfNotExists (ImageString "missing") 9 None 96 sampleWin
  = Returns (-1, None) sampleWin.
Proof. exact (no_address_no_index (ImageString "missing") 9 None 96 sampleWin eq_refl). Defined.

(** X23.  [imageIndexAddIfNotExists] caches what the native list accepted,
    and only that.  If it returns an index above -1 with a cache, the same
    image looked up again with that cache, in any world that resolves names
    the same way, gets the same index with no call and no change to the
    cache.  If it returns -1 or less, the cache it returns is the one it was
    given. *)
Theorem imageIndex_cached image hIml m dpi w i m' w' :
  imageIndexAddIfNotExists image hIml m dpi w = Returns (i, m') w' ->
  (-1 < i ->
   forall hIml2 dpi2 w2,
     Resources_Image w2 = Resources_Image w ->
     imageIndexAddIfNotExists image hIml2 m' dpi2 w2 = Returns (i, m') w2) /\
  (i <= -1 -> m' = m).
Proof.
  rewrite imageIndexAddIfNotExists_outcome. cbv zeta.
  set (resolved := match image with
                   | ImageString name => fst (Resources_Image w name)
                   | _ => image
                   end).
  intros Hrun.
  assert (Hres : forall w2, Resources_Image w2 = Resources_Image w ->
            match image with
            | ImageString name => fst (Resources_Image w2 name)
            | _ => image
            end = resolved).
  { intros w2 Hr. unfold resolved. destruct image; try reflexivity. now rewrite Hr. }
  destruct (pointerOf resolved =? 0)%N eqn:Ep.
  - injection Hrun as <- <- <-. split; [lia | reflexivity].
  - destruct (m ≫= _) as [i0|] eqn:Hhit.
    + injection Hrun as <- <- <-. split; [| reflexivity].
      intros _ hIml2 dpi2 w2 Hr.
      rewrite imageIndexAddIfNotExists_outcome. cbv zeta.
      rewrite (Hres w2 Hr), Ep, Hhit. reflexivity.
    + destruct (match resolved with
                | ImageBitmap (Some b) => _
                | ImageIcon (Some ic) => _
                | _ => _
                end) as [i1 w1].
      destruct (-1 <? i1) eqn:Ei.
      * destruct m as [mp|]; [| discriminate]. injection Hrun as <- <- <-.
        apply Z.ltb_lt in Ei. split; [| lia].
        intros _ hIml2 dpi2 w2 Hr.
        rewrite imageIndexAddIfNotExists_outcome. cbv zeta.
        rewrite (Hres w2 Hr), Ep. cbn. now rewrite lookup_insert_eq.
      * injection Hrun as <- <- <-. split; [| reflexivity].
        apply Z.ltb_ge in Ei. lia.
Qed.

Lemma imageIndex_cached_witness :
  imageIndexAddIfNotExists (ImageBitmap (Some bitmapA)) 9
    (Some {[ 1%N := 0 ]}) 96 sampleWin
  = Returns (0, Some {[ 1%N := 0 ]}) sampleWin.
Proof.
  refine (proj1 (imageIndex_cached (ImageBitmap (Some bitmapA)) 9 (Some ∅) 96
                   sampleWin 0 _
                   (mkWin [1; 2] (fileInfo sampleWin) (Resources_Image sampleWin)
                      [CallImageList_AddMasked 9 100 0]) _) _ 9 96 sampleWin eq_refl).
  - vm_compute. reflexivity.
  - reflexivity.
Defined.

(** X24.  [imageIndexMaybeAdd] on a system image list ([isSysIml] true)
    never touches the cache of addresses and never calls an [ImageList_*]
    function.  An image that is not a string gets -1 with nothing called and
    nothing changed.  For a file path, an index that is returned and is not
    -1 is cached: the same path looked up again with the caches returned
    gets the same index with no call at all. *)
Theorem system_list_index image hIml mu mf dpi w :
  (match image with ImageString _ => False | _ => True end ->
   imageIndexMaybeAdd image hIml true mu mf dpi w = Returns (-1, mu, mf) w) /\
  (forall i mu' mf' w',
     imageIndexMaybeAdd image hIml true mu mf dpi w = Returns (i, mu', mf') w' ->
     mu' = mu /\
     (forall c, In c (calls w') -> In c (calls w) \/ exists p, c = CallSHGetFileInfo p) /\
     (i <> -1 ->
      forall hIml2 dpi2 w2,
        imageIndexMaybeAdd image hIml2 true mu' mf' dpi2 w2 = Returns (i, mu', mf') w2)).
Proof.
  split.
  - destruct image; intros []; reflexivity.
  - intros i mu' mf' w'. unfold imageIndexMaybeAdd. cbn [negb].
    destruct image as [|path|p|p|];
      try (intros [= <- <- <- <-]; split; [reflexivity |];
           split; [intros c Hc; now left |]; intros; reflexivity).
    destruct (mf ≫= _) as [i0|] eqn:Hhit.
    + intros [= <- <- <- <-]. split; [reflexivity |].
      split; [intros c Hc; now left |].
      intros _ hIml2 dpi2 w2. now rewrite Hhit.
    + unfold iconIndexAndHImlForFilePath.
      destruct (hasNUL path); [discriminate |].
      destruct (fileInfo w path) as [h ic].
      assert (Hcalls : forall c,
                In c (calls (called (CallSHGetFileInfo path) w)) ->
                In c (calls w) \/ exists p, c = CallSHGetFileInfo p).
      { intros c Hc. cbn in Hc. apply in_app_or in Hc as [Hc | [<- | []]];
          [now left | right; now exists path]. }
      destruct (h =? 0).
      * cbn. intros [= <- <- <- <-]. split; [reflexivity |].
        split; [exact Hcalls |]. intros Hn. now contradiction Hn.
      * destruct (wrap32 ic =? -1) eqn:E.
        -- intros [= <- <- <- <-]. split; [reflexivity |].
           split; [exact Hcalls |]. intros Hn. now contradiction Hn.
        -- destruct mf as [mp|]; [| discriminate].
           intros [= <- <- <- <-]. split; [reflexivity |].
           split; [exact Hcalls |].
           intros _ hIml2 dpi2 w2. cbn. now rewrite lookup_insert_eq.
Qed.

Lemma system_list_index_witness :
  imageIndexMaybeAdd (ImageBitmap (Some bitmapA)) 9 true None None 96 sampleWin
  = Returns (-1, None, None) sampleWin.
Proof.
  exact (proj1 (system_list_index (ImageBitmap (Some bitmapA)) 9 None None 96 sampleWin) I).
Defined.

End ImageListFacts.
